(** * Bioaerosol automation service: the ingestion / merge loop of [Automate.py]

    A shallow embedding of [load_existing_history], [save_atomic] and of one
    iteration of the [while True] loop of [main], together with the pandas
    operations the loop relies on ([pivot_table], [concat],
    [drop_duplicates], [sort_values], [iloc]).

    Modelling choices, all of them visible in the definitions below:
    - the [Date] and [Time] columns hold strings ([read_csv] leaves
      ["2024-01-01"] and ["00:00"] as [str]); Python compares [str] by code
      point, which on UTF-8 bytes is [String.compare];
    - concentrations are rationals ([Q]); the one float computation of the
      source, the mean taken by [pivot_table], is the exact quotient, stored
      in reduced form so that equal numbers are equal terms; the rounding of
      float64 is not followed, and where a property gives the value of a
      mean it is the mean of a single number, on which the two agree;
    - a cell of the batch file may be missing ([NaN]); the pivot leaves out
      the rows with a missing cell, as pandas does;
    - a wide row carries its key and an association list from column name to
      value; a column of the frame that a row does not list is [NaN] there;
    - Python exceptions are values of [exn] in a state-and-exception monad;
      the state persists when a computation raises, as Python's does. *)

From Stdlib Require Import List String Ascii Bool Arith Lia.
From Stdlib Require Import NArith ZArith QArith Qreduction.
From Stdlib Require Import Sorting.Sorted Setoid.
Import ListNotations.

#[local] Open Scope string_scope.
#[local] Open Scope list_scope.
#[local] Open Scope nat_scope.

(** ** Frames *)

(** The key of the history store: the [Date] and [Time] cells of a row. *)
Definition Key : Type := (string * string)%type.

(** Tuple comparison, as [sort_values(by=['Date', 'Time'])] orders rows. *)
Definition key_compare (k1 k2 : Key) : comparison :=
  match String.compare (fst k1) (fst k2) with
  | Eq => String.compare (snd k1) (snd k2)
  | c => c
  end.

Definition key_ltb (k1 k2 : Key) : bool :=
  match key_compare k1 k2 with Lt => true | _ => false end.

Definition key_leb (k1 k2 : Key) : bool :=
  match key_compare k1 k2 with Gt => false | _ => true end.

Definition key_eqb (k1 k2 : Key) : bool :=
  (String.eqb (fst k1) (fst k2) && String.eqb (snd k1) (snd k2))%bool.

(** A wide row: the key columns, then the value cells by column name. *)
Record Row : Type := mkRow {
  Date : string;
  Time : string;
  cells : list (string * Q)
}.

Definition key (r : Row) : Key := (Date r, Time r).

(** A [DataFrame] in wide format: its column index and its rows in order. *)
Record DataFrame : Type := mkFrame {
  columns : list string;
  rows : list Row
}.

Definition len (df : DataFrame) : nat := List.length (rows df).

Definition has_column (c : string) (cols : list string) : bool :=
  existsb (String.eqb c) cols.

(** [pd.concat([a, b], ignore_index=True)]: the rows of [a] then those of
    [b]; the column index is that of [a] followed by the columns only [b]
    has. *)
Definition concat_columns (ca cb : list string) : list string :=
  ca ++ filter (fun c => negb (has_column c ca)) cb.

Definition concat (a b : DataFrame) : DataFrame :=
  mkFrame (concat_columns (columns a) (columns b)) (rows a ++ rows b).

(** [drop_duplicates(subset=['Date', 'Time'], keep='last')]: a row is dropped
    when a later row has its key; the survivors keep their order. *)
Fixpoint drop_duplicates_rows (l : list Row) : list Row :=
  match l with
  | [] => []
  | r :: tl =>
      if existsb (fun r' => key_eqb (key r) (key r')) tl
      then drop_duplicates_rows tl
      else r :: drop_duplicates_rows tl
  end.

Definition drop_duplicates (df : DataFrame) : DataFrame :=
  mkFrame (columns df) (drop_duplicates_rows (rows df)).

(** [sort_values(by=['Date', 'Time'])], ascending: a stable insertion sort
    on the key. *)
Fixpoint insert_row (r : Row) (l : list Row) : list Row :=
  match l with
  | [] => [r]
  | x :: tl =>
      if key_leb (key r) (key x) then r :: l else x :: insert_row r tl
  end.

Fixpoint sort_rows (l : list Row) : list Row :=
  match l with
  | [] => []
  | r :: tl => insert_row r (sort_rows tl)
  end.

Definition sort_values (df : DataFrame) : DataFrame :=
  mkFrame (columns df) (sort_rows (rows df)).

(** Lines 122-126 of [main]: concat, drop duplicates keeping the last, sort. *)
Definition merge (master_df processed_batch : DataFrame) : DataFrame :=
  let combined_df := concat master_df processed_batch in
  sort_values (drop_duplicates combined_df).

(** Lines 129-130 of [main]: [if len(df) > 5000: df = df.iloc[-5000:]]. *)
Definition MAX_ROWS : nat := 5000.

Definition iloc_last (n : nat) (df : DataFrame) : DataFrame :=
  mkFrame (columns df) (skipn (len df - n) (rows df)).

Definition cap (df : DataFrame) : DataFrame :=
  if MAX_ROWS <? len df then iloc_last MAX_ROWS df else df.

(** ** The batch in long format and its pivot *)

(** A row of the R script's output as [pd.read_csv] returns it, at its four
    required columns.  A cell is [None] where the file has a blank or an NA
    marker, which pandas reads as [NaN]. *)
Record LongRow : Type := mkLong {
  date : option string;
  time : option string;
  classification : option string;
  conc : option Q
}.

(** A row with all four cells present. *)
Record Observation : Type := mkObs {
  obs_date : string;
  obs_time : string;
  obs_label : string;
  obs_conc : Q
}.

Definition observation (r : LongRow) : option Observation :=
  match date r, time r, classification r, conc r with
  | Some d, Some t, Some c, Some v => Some (mkObs d t c v)
  | _, _, _, _ => None
  end.

(** The rows that reach a cell of the pivot.  The [groupby] inside
    [pivot_table] leaves out a row with a missing [date], [time] or
    [classification] ([dropna=True]); the mean of a group skips a missing
    [conc], and a group whose mean is missing is dropped before the table is
    unstacked.  So only the rows with all four cells count. *)
Definition dropna (l : list LongRow) : list Observation :=
  flat_map (fun r => match observation r with
                     | Some o => [o]
                     | None => []
                     end) l.

(** The row read from a line of the file with all four cells filled in. *)
Definition observed (d t c : string) (v : Q) : LongRow :=
  mkLong (Some d) (Some t) (Some c) (Some v).

(** The frame [pd.read_csv(expected_csv)] returns: its column index and its
    rows.  When one of the four required columns is missing the loop never
    reads the corresponding field. *)
Record LongFrame : Type := mkLongFrame {
  long_columns : list string;
  records : list LongRow
}.

Definition long_key (o : Observation) : Key := (obs_date o, obs_time o).

(** [new_data.empty]: one of the two axes has length zero. *)
Definition empty (f : LongFrame) : bool :=
  match long_columns f, records f with
  | [], _ | _, [] => true
  | _, _ => false
  end.

(** The sorted distinct values of a list, as [groupby] (for the row index)
    and [pivot_table] (for the column index) compute them. *)
Section SortedUnique.
Variable A : Type.
Variable cmp : A -> A -> comparison.

Fixpoint insert_unique (a : A) (l : list A) : list A :=
  match l with
  | [] => [a]
  | x :: tl =>
      match cmp a x with
      | Lt => a :: l
      | Eq => l
      | Gt => x :: insert_unique a tl
      end
  end.

Definition sorted_unique (l : list A) : list A :=
  fold_right insert_unique [] l.
End SortedUnique.

(** Strictly below, for a three-way comparison. *)
Definition cmp_lt {A : Type} (cmp : A -> A -> comparison) (a b : A) : Prop :=
  cmp a b = Lt.

Arguments insert_unique {A} cmp a l.
Arguments sorted_unique {A} cmp l.

(** The concentrations recorded for one (date, time) group and one label. *)
Definition group_values (k : Key) (c : string) (l : list Observation) : list Q :=
  map obs_conc
    (filter (fun r => key_eqb (long_key r) k && String.eqb (obs_label r) c)%bool l).

Definition Qsum (vs : list Q) : Q := fold_right Qplus 0%Q vs.

(** [aggfunc='mean'], the default of [pivot_table], as the exact quotient:
    the rounding of the float64 computation is not followed.  On a single
    value the two agree. *)
Definition mean (vs : list Q) : Q :=
  Qred (Qsum vs / inject_Z (Z.of_nat (List.length vs))).

(** One cell of the pivot: the mean of the group, or [fill_value=0] when the
    label has no record at that timestamp. *)
Definition pivot_cell (k : Key) (c : string) (l : list Observation) : Q :=
  match group_values k c l with
  | [] => 0%Q
  | vs => mean vs
  end.

Definition pivot_index (l : list Observation) : list Key :=
  sorted_unique key_compare (map long_key l).

Definition pivot_labels (l : list Observation) : list string :=
  sorted_unique String.compare (map obs_label l).

(** ** Exceptions *)

(** The exceptions the loop can meet; all of them derive from Python's
    [Exception], and only the first is a [subprocess.CalledProcessError]. *)
Inductive exn : Type :=
| CalledProcessError
| OSError
| ParserError
| ValueError
| InvalidIndexError
| UnicodeDecodeError.

Inductive result (A : Type) : Type :=
| Ok (a : A)
| Raise (e : exn).

Arguments Ok {A} a.
Arguments Raise {A} e.

(** [new_data.pivot_table(index=['date', 'time'], columns='classification',
    values='conc', fill_value=0).reset_index()] followed by the renaming of
    [date], [time] to [Date], [Time] (lines 92-100).

    [reset_index] raises [ValueError] when a label is already called [date]
    or [time].  A label called [Date] or [Time] gives, after the renaming, a
    frame whose column index is not unique, which [pd.concat] (line 122)
    refuses with [InvalidIndexError]; nothing between the two lines touches
    [master_df] or a file, so the model raises it here. *)
Definition pivot_table (new_data : LongFrame) : result DataFrame :=
  let l := dropna (records new_data) in
  let labels := pivot_labels l in
  if (has_column "date" labels || has_column "time" labels)%bool
  then Raise ValueError
  else if (has_column "Date" labels || has_column "Time" labels)%bool
  then Raise InvalidIndexError
  else Ok (mkFrame
             ("Date" :: "Time" :: labels)
             (map (fun k => mkRow (fst k) (snd k)
                               (map (fun c => (c, pivot_cell k c l)) labels))
                  (pivot_index l))).

(** [df[col] = v]: a new last column holding [v] in every row. *)
Definition assign_column (col : string) (v : Q) (df : DataFrame) : DataFrame :=
  mkFrame (columns df ++ [col])
          (map (fun r => mkRow (Date r) (Time r) (cells r ++ [(col, v)]))
               (rows df)).

(** [if col not in df.columns: df[col] = 0.0] (lines 103-112). *)
Definition ensure_column (df : DataFrame) (col : string) : DataFrame :=
  if has_column col (columns df) then df else assign_column col 0%Q df.

Definition final_cols : list string :=
  ["Date"; "Time"; "Bacteria"; "Fungi"; "Pollen"; "PM2.5"; "PM10"].

Definition cell (c : string) (r : Row) : option Q :=
  option_map snd (find (fun p => String.eqb c (fst p)) (cells r)).

(** [df[cols]] for [cols] that contain [Date] and [Time]: the value columns
    of [cols] in that order; a cell the row lacks stays missing. *)
Definition select (cols : list string) (df : DataFrame) : DataFrame :=
  let value_cols :=
    filter (fun c => negb (String.eqb c "Date" || String.eqb c "Time")) cols in
  mkFrame cols
          (map (fun r =>
                  mkRow (Date r) (Time r)
                        (flat_map (fun c => match cell c r with
                                            | Some v => [(c, v)]
                                            | None => []
                                            end) value_cols))
               (rows df)).

(** Lines 92-117 of [main]: the long-to-wide transform of one batch. *)
Definition transform (new_data : LongFrame) : result DataFrame :=
  match pivot_table new_data with
  | Raise e => Raise e
  | Ok pivoted_df =>
      let pivoted_df :=
        fold_left ensure_column ["Bacteria"; "Fungi"; "Pollen"] pivoted_df in
      let pivoted_df := ensure_column pivoted_df "PM2.5" in
      let pivoted_df := ensure_column pivoted_df "PM10" in
      let available_cols :=
        filter (fun c => has_column c (columns pivoted_df)) final_cols in
      Ok (select available_cols pivoted_df)
  end.

Definition example_batch : LongFrame :=
  mkLongFrame ["date"; "time"; "classification"; "conc"]
    [ observed "2024-01-01" "00:00" "Bacteria" 10;
      observed "2024-01-01" "00:00" "Fungi" 3 ].

(** ** The world of the service *)

(** What a CSV file on disk gives when [pd.read_csv] opens it: an
    exception, or a frame. *)
Inductive csv (F : Type) : Type :=
| Unreadable            (* [read_csv] raises: truncated, binary, no header *)
| Table (f : F).

Arguments Unreadable {F}.
Arguments Table {F} f.

Record World : Type := mkWorld {
  master_df : DataFrame;                   (* the local variable of [main] *)
  automation_file : option (csv DataFrame);(* [AUTOMATION_FILE] *)
  tmp_file : option (csv DataFrame);       (* [AUTOMATION_FILE.with_suffix('.tmp')] *)
  expected_csv : option (csv LongFrame);   (* [TEMP_OUTPUT_DIR / f"{name}.csv"] *)
  reported : list (nat * nat)              (* the "Success!" lines printed so far
                                              (line 134): timestamps added, total *)
}.

(** What [subprocess.run(cmd, check=True, capture_output=True, text=True)]
    meets.  With [text=True] the captured output is decoded before the exit
    status is looked at, so output that cannot be decoded raises whatever
    the status is. *)
Inductive exit_status : Type :=
| Exit0                (* exit status 0, output decoded: the call returns *)
| ExitNonZero          (* non-zero status, output decoded: [CalledProcessError] *)
| LaunchFailed         (* the executable could not be started: [OSError] *)
| Undecodable (nonzero : bool).
                       (* the script ran, with a non-zero status or not, and
                          its output cannot be decoded: [UnicodeDecodeError] *)


(** What [df.to_csv(temp_path, index=False)] meets. *)
Inductive write_result : Type :=
| Written              (* the whole table is in the temporary file *)
| OpenFails            (* the file cannot be opened for writing: none is made *)
| WriteFails.          (* the write breaks off: a partial file is left *)

Record Env : Type := mkEnv {
  r_exit : exit_status;
  r_output : option (csv LongFrame);  (* the batch file the R script leaves *)
  to_csv : write_result;              (* [df.to_csv(temp_path, index=False)] *)
  replace_ok : bool;                  (* [os.replace] completes *)
  remove_ok : bool                    (* [os.remove] completes *)
}.

(** State and exceptions: a computation returns or raises, and leaves a
    world either way. *)
Definition M (A : Type) : Type := World -> result A * World.

Definition ret {A} (a : A) : M A := fun w => (Ok a, w).

Definition raise {A} (e : exn) : M A := fun w => (Raise e, w).

Definition bind {A B} (m : M A) (k : A -> M B) : M B :=
  fun w =>
    match m w with
    | (Ok a, w') => k a w'
    | (Raise e, w') => (Raise e, w')
    end.

(** [try: body except <class>: handler]; [catches e] tells whether [e] is an
    instance of the class. *)
Definition try_except {A} (body : M A) (catches : exn -> bool)
    (handler : exn -> M A) : M A :=
  fun w =>
    match body w with
    | (Ok a, w') => (Ok a, w')
    | (Raise e, w') => if catches e then handler e w' else (Raise e, w')
    end.

Definition get : M World := fun w => (Ok w, w).

Definition modify (f : World -> World) : M unit := fun w => (Ok tt, f w).

Notation "x <- m ;; k" := (bind m (fun x => k))
  (at level 61, m at next level, right associativity).
Notation "m ;;; k" := (bind m (fun _ => k))
  (at level 61, right associativity).

Definition isinstance_Exception (e : exn) : bool := true.

Definition isinstance_CalledProcessError (e : exn) : bool :=
  match e with CalledProcessError => true | _ => false end.

Definition set_master_df (df : DataFrame) (w : World) : World :=
  mkWorld df (automation_file w) (tmp_file w) (expected_csv w) (reported w).

Definition set_automation_file (f : option (csv DataFrame)) (w : World) : World :=
  mkWorld (master_df w) f (tmp_file w) (expected_csv w) (reported w).

Definition set_tmp_file (f : option (csv DataFrame)) (w : World) : World :=
  mkWorld (master_df w) (automation_file w) f (expected_csv w) (reported w).

Definition set_expected_csv (f : option (csv LongFrame)) (w : World) : World :=
  mkWorld (master_df w) (automation_file w) (tmp_file w) f (reported w).

(** [print(f"Success! Added {added} new timestamps. Total records: {total}")]. *)
Definition report (added total : nat) (w : World) : World :=
  mkWorld (master_df w) (automation_file w) (tmp_file w) (expected_csv w)
          (reported w ++ [(added, total)]).

(** [pd.read_csv(path)] on a file that exists. *)
Definition read_csv {F} (file : option (csv F)) : M F :=
  match file with
  | Some (Table f) => ret f
  | Some Unreadable => raise ParserError
  | None => raise OSError
  end.

(** ** [load_existing_history] *)

Definition empty_history : DataFrame := mkFrame final_cols [].

Definition load_existing_history : M DataFrame :=
  w <- get ;;
  loaded <-
    (match automation_file w with
     | Some _ =>
         try_except
           (df <- read_csv (automation_file w) ;;
            if (has_column "Date" (columns df) && has_column "Time" (columns df))%bool
            then ret (Some df)
            else ret None)
           isinstance_Exception
           (fun _ => ret None)
     | None => ret None
     end) ;;
  match loaded with
  | Some df => ret df
  | None => ret empty_history
  end.

(** ** [save_atomic] *)

(** [df.to_csv(temp_path, index=False)] then [os.replace(temp_path,
    filepath)].  A write that breaks off leaves a partial temporary file,
    recorded as [Unreadable] (nothing reads the temporary file); a file that
    cannot be opened leaves the temporary path as it was.

    The file written from [df] is recorded as [Table df].  On reading a file
    back [read_csv] infers the column types anew (a [Time] of ["0900"] comes
    back as the number 900), which a model with string keys does not follow;
    no property below reads back a file that the loop has written. *)
Definition save_atomic (env : Env) (df : DataFrame) : M unit :=
  (match to_csv env with
   | Written => modify (set_tmp_file (Some (Table df)))
   | WriteFails => modify (set_tmp_file (Some Unreadable)) ;;; raise OSError
   | OpenFails => raise OSError
   end) ;;;
  (if replace_ok env
   then w <- get ;;
        modify (set_automation_file (tmp_file w)) ;;;
        modify (set_tmp_file None)
   else raise OSError).

(** ** One iteration of the loop *)

(** [subprocess.run(cmd, check=True, capture_output=True, text=True)]: the
    script leaves its output file; the call raises [UnicodeDecodeError] when
    the captured output cannot be decoded and [CalledProcessError] on a
    non-zero exit; a script that cannot be started raises [OSError] and
    leaves nothing. *)
Definition subprocess_run (env : Env) : M unit :=
  match r_exit env with
  | Exit0 => modify (set_expected_csv (r_output env))
  | ExitNonZero => modify (set_expected_csv (r_output env)) ;;; raise CalledProcessError
  | LaunchFailed => raise OSError
  | Undecodable _ =>
      modify (set_expected_csv (r_output env)) ;;; raise UnicodeDecodeError
  end.

Definition os_remove (env : Env) : M unit :=
  if remove_ok env then modify (set_expected_csv None) else raise OSError.

Definition lift {A} (r : result A) : M A :=
  match r with Ok a => ret a | Raise e => raise e end.

(** The path an iteration took, named after the last of these lines that it
    prints.  A pass that prints "Success!" and then fails to delete the batch
    file ends on [ProcessingError]; its "Success!" line is in [reported]. *)
Inductive outcome : Type :=
| RScriptError                       (* "Error running R script"; sleep; continue *)
| Success (added total : nat)        (* "Success! Added ... Total records: ..." *)
| FormatUnexpected                   (* "Error: R output format unexpected." *)
| EmptyData                          (* "R script produced empty data file." *)
| ProcessingError                    (* "Error processing CSV data" *)
| OutputMissing.                     (* "Warning: Expected output file not found" *)

Definition required_r_cols : list string :=
  ["date"; "time"; "classification"; "conc"].

(** [all(col in new_data.columns for col in required_r_cols)]. *)
Definition has_required_cols (new_data : LongFrame) : bool :=
  forallb (fun col => has_column col (long_columns new_data)) required_r_cols.

(** Lines 81-143: the body of the [try] that reads and processes the batch. *)
Definition process_batch (env : Env) : M outcome :=
  w <- get ;;
  new_data <- read_csv (expected_csv w) ;;
  printed <-
    (if negb (empty new_data) then
       if has_required_cols new_data
       then
         processed_batch <- lift (transform new_data) ;;
         w <- get ;;
         modify (set_master_df (cap (merge (master_df w) processed_batch))) ;;;
         w <- get ;;
         save_atomic env (master_df w) ;;;
         modify (report (len processed_batch) (len (master_df w))) ;;;
         ret (Success (len processed_batch) (len (master_df w)))
       else ret FormatUnexpected
     else ret EmptyData) ;;
  os_remove env ;;;
  ret printed.

(** Lines 51-154: one pass through the body of [while True].  The handler of
    the first [try] ends the iteration ([continue]); every other path ends in
    the final [time.sleep(WAIT_TIME)]. *)
Definition iteration (env : Env) : M outcome :=
  ran <- try_except (subprocess_run env ;;; ret true)
                    isinstance_CalledProcessError
                    (fun _ => ret false) ;;
  if ran : bool then
    w <- get ;;
    match expected_csv w with
    | Some _ =>
        try_except (process_batch env) isinstance_Exception
                   (fun _ => ret ProcessingError)
    | None => ret OutputMissing
    end
  else ret RScriptError.

(** [main] up to the loop: the history is loaded once. *)
Definition startup : M unit :=
  df <- load_existing_history ;;
  modify (set_master_df df).

(** ** Notions the properties are stated with *)

Definition key_lt (k1 k2 : Key) : Prop := key_compare k1 k2 = Lt.

Definition row_lt (r1 r2 : Row) : Prop := key_lt (key r1) (key r2).

(** Strictly ascending by (Date, Time): each row is below the next one. *)
Definition strictly_ascending (l : list Row) : Prop := Sorted row_lt l.

(** The last row of [l] that has key [k]: the one [keep='last'] retains. *)
Fixpoint lookup_last (k : Key) (l : list Row) : option Row :=
  match l with
  | [] => None
  | r :: tl =>
      match lookup_last k tl with
      | Some x => Some x
      | None => if key_eqb (key r) k then Some r else None
      end
  end.

(** The row a frame holds for key [k] (the first one, scanning down). *)
Definition row_for (k : Key) (df : DataFrame) : option Row :=
  find (fun r => key_eqb (key r) k) (rows df).

Definition after_script (env : Env) (w : World) : World :=
  set_expected_csv (r_output env) w.

(** The batch that reaches the merge: read without error, not empty, with
    the four required columns, and pivoted without error. *)
Definition accepted_batch (w : World) : option DataFrame :=
  match expected_csv w with
  | Some (Table new_data) =>
      if (negb (empty new_data) && has_required_cols new_data)%bool
      then match transform new_data with Ok b => Some b | Raise _ => None end
      else None
  | _ => None
  end.

(** A wide row over the canonical columns. *)
Definition wide (D T : string) (bacteria fungi pollen pm25 pm10 : Q) : Row :=
  mkRow D T [("Bacteria", bacteria); ("Fungi", fungi); ("Pollen", pollen);
             ("PM2.5", pm25); ("PM10", pm10)].

(** The frame the pivot and the back-filling loop work on: the key columns,
    then one value column per name in [cols]. *)
Definition pivot_frame (l : list Observation) (cols : list string) : DataFrame :=
  mkFrame ("Date" :: "Time" :: cols)
          (map (fun k => mkRow (fst k) (snd k)
                            (map (fun c => (c, pivot_cell k c l)) cols))
               (pivot_index l)).

Definition add_column (c : string) (cols : list string) : list string :=
  if has_column c cols then cols else cols ++ [c].

(** The labels that collide with a key column of the pivot. *)
Definition reserved_names : list string := ["date"; "time"; "Date"; "Time"].

(** The wide row of the group [k] of a batch. *)
Definition wide_row (l : list Observation) (k : Key) : Row :=
  wide (fst k) (snd k)
       (pivot_cell k "Bacteria" l) (pivot_cell k "Fungi" l)
       (pivot_cell k "Pollen" l) (pivot_cell k "PM2.5" l)
       (pivot_cell k "PM10" l).

(** ** Concrete worlds *)

Definition stored_history : DataFrame :=
  mkFrame final_cols [wide "2024-01-01" "00:00" 5 5 5 0 0].

Definition stored_world : World :=
  mkWorld stored_history (Some (Table stored_history)) None None [].

Definition example_wide : DataFrame :=
  mkFrame final_cols [wide "2024-01-01" "00:00" 10 3 0 0 0].


Definition good_env : Env :=
  mkEnv Exit0 (Some (Table example_batch)) Written true true.

(** The disk fills up during [os.replace]. *)
Definition disk_full_env : Env :=
  mkEnv Exit0 (Some (Table example_batch)) Written false true.

Definition failing_script_env : Env :=
  mkEnv ExitNonZero None Written true true.



(** [save_atomic] raises: the write or the rename does not go through. *)
Definition save_fails (env : Env) : bool :=
  match to_csv env with
  | Written => negb (replace_ok env)
  | OpenFails | WriteFails => true
  end.





(** The reading of the spec under which a failing persist ends the process:
    the iteration raises. *)
Definition persist_failure_is_fatal (env : Env) (w : World) : Prop :=
  r_exit env = Exit0 ->
  accepted_batch (after_script env w) <> None ->
  save_fails env = true ->
  exists e w', iteration env w = (Raise e, w').

(** Adjacent rows in strictly increasing key order, decided. *)
Fixpoint ascending_b (l : list Row) : bool :=
  match l with
  | [] => true
  | r :: tl =>
      match tl with
      | [] => true
      | x :: _ => (key_ltb (key r) (key x) && ascending_b tl)%bool
      end
  end.

Definition digit (n : N) : ascii := ascii_of_N (48 + n mod 10).

(** A date in year [n], four digits wide. *)
Definition new_year (n : N) : string :=
  String (digit (n / 1000)) (String (digit (n / 100))
    (String (digit (n / 10)) (String (digit n) "-01-01"))).

(** One row per year, [count] years from year [from] on. *)
Fixpoint yearly_rows (count : nat) (from : N) : list Row :=
  match count with
  | O => []
  | S c => wide (new_year from) "00:00" 0 0 0 0 0 :: yearly_rows c (N.succ from)
  end.

Definition long_history : DataFrame :=
  mkFrame final_cols (yearly_rows (S MAX_ROWS) 0).

(** ** The readiness gate and the loop around the iteration *)

(** Python's [needle in hay] on [str]: [needle] starts at some position. *)
Fixpoint contains (needle hay : string) : bool :=
  (String.prefix needle hay ||
   match hay with
   | EmptyString => false
   | String _ rest => contains needle rest
   end)%bool.

(** [check_input_files], lines 23-28, on the names [f.name] of the entries
    of [INPUT_DIR]. *)
Definition check_input_files (files : list string) : bool :=
  let has_aq := existsb (contains "AQ_") files in
  let has_ft := existsb (contains "FT_") files in
  (has_aq && has_ft)%bool.

(** Lines 42-44: [while not check_input_files(): time.sleep(10)].  Each
    element of [polls] is what the input directory holds at one test of the
    loop condition; the result is the number of sleeps before the loop is
    left, and [None] when the polls run out first. *)
Fixpoint wait_for_inputs (polls : list (list string)) : option nat :=
  match polls with
  | [] => None
  | files :: later =>
      if check_input_files files then Some 0
      else option_map S (wait_for_inputs later)
  end.

Definition WAIT_TIME : nat := 60.

(** The loop's own variables beside the world: [loop_count] and the seconds
    spent in [time.sleep(WAIT_TIME)]. *)
Record LoopState : Type := mkLoop {
  world : World;
  loop_count : nat;
  slept : nat
}.

(** One pass with its bookkeeping: the handler of the first [try] sleeps and
    [continue]s, skipping [loop_count += 1] (lines 73-74); every other path
    ends in lines 152-154. *)
Definition loop_body (env : Env) (s : LoopState) : result outcome * LoopState :=
  match iteration env (world s) with
  | (Ok RScriptError, w') =>
      (Ok RScriptError, mkLoop w' (loop_count s) (slept s + WAIT_TIME))
  | (Ok o, w') => (Ok o, mkLoop w' (S (loop_count s)) (slept s + WAIT_TIME))
  | (Raise e, w') => (Raise e, mkLoop w' (loop_count s) (slept s))
  end.

(** The [while True] loop over the iterations [envs] describes, up to the
    first exception that leaves the loop. *)
Fixpoint run_loop (envs : list Env) (s : LoopState)
  : result (list outcome) * LoopState :=
  match envs with
  | [] => (Ok [], s)
  | env :: later =>
      match loop_body env s with
      | (Ok o, s') =>
          match run_loop later s' with
          | (Ok os, s'') => (Ok (o :: os), s'')
          | (Raise e, s'') => (Raise e, s'')
          end
      | (Raise e, s') => (Raise e, s')
      end
  end.

(** A frame the history store can hold for good: keyed, ascending, capped. *)
Definition well_formed (df : DataFrame) : Prop :=
  has_column "Date" (columns df) = true /\
  has_column "Time" (columns df) = true /\
  strictly_ascending (rows df) /\
  len df <= MAX_ROWS.

(** The keys a list of rows holds. *)
Definition keys (l : list Row) : list Key := map key l.

Definition zero_row (k : Key) : Row := wide (fst k) (snd k) 0 0 0 0 0.

Definition value_cols : list string :=
  ["Bacteria"; "Fungi"; "Pollen"; "PM2.5"; "PM10"].

(** The outcomes after which [loop_count += 1] runs. *)
Definition counted (o : outcome) : bool :=
  match o with RScriptError => false | _ => true end.

(** * Properties *)

(** ** Python's [str] ordering *)

Module StrOrd.

Lemma ascii_compare_refl (a : ascii) : Ascii.compare a a = Eq.
Proof. unfold Ascii.compare. apply N.compare_refl. Qed.

Lemma ascii_compare_lt_trans (a b c : ascii) :
  Ascii.compare a b = Lt -> Ascii.compare b c = Lt -> Ascii.compare a c = Lt.
Proof.
  unfold Ascii.compare. rewrite !N.compare_lt_iff. apply N.lt_trans.
Qed.

Lemma compare_refl (s : string) : String.compare s s = Eq.
Proof.
  induction s as [|a s IH]; simpl; [reflexivity|].
  now rewrite ascii_compare_refl.
Qed.

Lemma compare_eq (s t : string) : String.compare s t = Eq <-> s = t.
Proof.
  split; [apply String.compare_eq_iff | intros ->; apply compare_refl].
Qed.

Lemma compare_lt_trans (s t u : string) :
  String.compare s t = Lt -> String.compare t u = Lt -> String.compare s u = Lt.
Proof.
  revert t u. induction s as [|a s IH]; intros [|b t] [|c u]; simpl;
    try discriminate; try reflexivity.
  destruct (Ascii.compare a b) eqn:Hab; try discriminate;
    destruct (Ascii.compare b c) eqn:Hbc; try discriminate; intros H1 H2.
  - apply Ascii.compare_eq_iff in Hab, Hbc. subst.
    rewrite ascii_compare_refl. eauto.
  - apply Ascii.compare_eq_iff in Hab. subst. now rewrite Hbc.
  - apply Ascii.compare_eq_iff in Hbc. subst. now rewrite Hab.
  - now rewrite (ascii_compare_lt_trans a b c).
Qed.

Lemma compare_gt_lt (s t : string) :
  String.compare s t = Gt <-> String.compare t s = Lt.
Proof.
  rewrite (String.compare_antisym s t).
  destruct (String.compare t s); simpl; split; congruence.
Qed.

End StrOrd.

(** ** The order on keys *)

Lemma key_compare_refl (k : Key) : key_compare k k = Eq.
Proof. unfold key_compare. now rewrite !StrOrd.compare_refl. Qed.

Lemma key_compare_eq (k1 k2 : Key) : key_compare k1 k2 = Eq <-> k1 = k2.
Proof.
  destruct k1 as [d1 t1], k2 as [d2 t2]. unfold key_compare; simpl. split.
  - destruct (String.compare d1 d2) eqn:Hd; try discriminate.
    intros Ht. apply StrOrd.compare_eq in Hd, Ht. now subst.
  - intros [= -> ->]. now rewrite !StrOrd.compare_refl.
Qed.

Lemma key_compare_antisym (k1 k2 : Key) :
  key_compare k1 k2 = CompOpp (key_compare k2 k1).
Proof.
  unfold key_compare.
  rewrite (String.compare_antisym (fst k1) (fst k2)).
  rewrite (String.compare_antisym (snd k1) (snd k2)).
  now destruct (String.compare (fst k2) (fst k1)).
Qed.

Lemma key_eqb_eq (k1 k2 : Key) : key_eqb k1 k2 = true <-> k1 = k2.
Proof.
  destruct k1 as [d1 t1], k2 as [d2 t2]. unfold key_eqb; simpl.
  rewrite andb_true_iff, !String.eqb_eq. split.
  - now intros [-> ->].
  - now intros [= -> ->].
Qed.

Lemma key_eqb_refl (k : Key) : key_eqb k k = true.
Proof. now apply key_eqb_eq. Qed.

Lemma key_eqb_neq (k1 k2 : Key) : key_eqb k1 k2 = false <-> k1 <> k2.
Proof.
  rewrite <- key_eqb_eq. destruct (key_eqb k1 k2); split; congruence.
Qed.

Lemma key_lt_irrefl (k : Key) : ~ key_lt k k.
Proof. unfold key_lt. now rewrite key_compare_refl. Qed.

Lemma key_lt_trans (k1 k2 k3 : Key) : key_lt k1 k2 -> key_lt k2 k3 -> key_lt k1 k3.
Proof.
  destruct k1 as [d1 t1], k2 as [d2 t2], k3 as [d3 t3].
  unfold key_lt, key_compare; simpl.
  destruct (String.compare d1 d2) eqn:H12; try discriminate;
    destruct (String.compare d2 d3) eqn:H23; try discriminate; intros Ha Hb.
  - apply StrOrd.compare_eq in H12, H23. subst.
    rewrite StrOrd.compare_refl. eapply StrOrd.compare_lt_trans; eauto.
  - apply StrOrd.compare_eq in H12. subst. now rewrite H23.
  - apply StrOrd.compare_eq in H23. subst. now rewrite H12.
  - now rewrite (StrOrd.compare_lt_trans d1 d2 d3).
Qed.

Lemma key_lt_asym (k1 k2 : Key) : key_lt k1 k2 -> ~ key_lt k2 k1.
Proof.
  intros H1 H2. apply (key_lt_irrefl k1). eapply key_lt_trans; eauto.
Qed.

Lemma key_leb_false_lt (k1 k2 : Key) : key_leb k1 k2 = false -> key_lt k2 k1.
Proof.
  unfold key_leb, key_lt. rewrite (key_compare_antisym k2 k1).
  now destruct (key_compare k1 k2).
Qed.

Lemma key_leb_true_neq_lt (k1 k2 : Key) :
  key_leb k1 k2 = true -> k1 <> k2 -> key_lt k1 k2.
Proof.
  unfold key_leb, key_lt. intros Hle Hne.
  destruct (key_compare k1 k2) eqn:Hc; try discriminate; [|reflexivity].
  now apply key_compare_eq in Hc.
Qed.

#[local] Instance row_lt_trans : RelationClasses.Transitive row_lt.
Proof. intros a b c. apply key_lt_trans. Qed.

Lemma strictly_ascending_strong (l : list Row) :
  strictly_ascending l <-> StronglySorted row_lt l.
Proof.
  split; [apply Sorted_StronglySorted, row_lt_trans | apply StronglySorted_Sorted].
Qed.

Lemma strictly_ascending_cons (r : Row) (l : list Row) :
  strictly_ascending (r :: l) <->
  strictly_ascending l /\ Forall (row_lt r) l.
Proof.
  rewrite !strictly_ascending_strong. split.
  - intros H. inversion H; subst. now split.
  - intros [H1 H2]. now constructor.
Qed.

Lemma strictly_ascending_NoDup (l : list Row) :
  strictly_ascending l -> NoDup (map key l).
Proof.
  induction l as [|r l IH]; intros H; simpl; [constructor|].
  apply strictly_ascending_cons in H. destruct H as [Hs Hf].
  constructor; [|auto].
  intros Hin. apply in_map_iff in Hin. destruct Hin as [x [Hk Hx]].
  rewrite Forall_forall in Hf. specialize (Hf x Hx).
  unfold row_lt in Hf. rewrite Hk in Hf. now apply key_lt_irrefl in Hf.
Qed.

(** Two strictly ascending lists with the same rows are the same list. *)
Lemma strictly_ascending_ext (l1 l2 : list Row) :
  strictly_ascending l1 -> strictly_ascending l2 ->
  (forall r, In r l1 <-> In r l2) -> l1 = l2.
Proof.
  revert l2. induction l1 as [|a l1 IH]; intros [|b l2] H1 H2 Hin.
  - reflexivity.
  - exfalso. apply (proj2 (Hin b)). now left.
  - exfalso. apply (proj1 (Hin a)). now left.
  - apply strictly_ascending_cons in H1, H2.
    destruct H1 as [Hs1 Hf1], H2 as [Hs2 Hf2].
    rewrite Forall_forall in Hf1, Hf2.
    assert (a = b) as ->.
    { destruct (proj1 (Hin a) (or_introl eq_refl)) as [Hab|Hab]; [congruence|].
      destruct (proj2 (Hin b) (or_introl eq_refl)) as [Hba|Hba]; [congruence|].
      exfalso. apply (key_lt_asym (key a) (key b)); [apply (Hf1 b Hba)|apply (Hf2 a Hab)]. }
    f_equal. apply IH; auto.
    intros r. split; intros Hr.
    + destruct (proj1 (Hin r) (or_intror Hr)) as [<-|]; auto.
      exfalso. apply (key_lt_irrefl (key b)). now apply Hf1.
    + destruct (proj2 (Hin r) (or_intror Hr)) as [<-|]; auto.
      exfalso. apply (key_lt_irrefl (key b)). now apply Hf2.
Qed.

(** ** Dropping duplicates and sorting *)

Lemma lookup_last_app (k : Key) (a b : list Row) :
  lookup_last k (a ++ b) =
  match lookup_last k b with
  | Some x => Some x
  | None => lookup_last k a
  end.
Proof.
  induction a as [|r a IH]; simpl.
  - now destruct (lookup_last k b).
  - rewrite IH. now destruct (lookup_last k b).
Qed.

Lemma lookup_last_Some (k : Key) (l : list Row) (r : Row) :
  lookup_last k l = Some r -> In r l /\ key r = k.
Proof.
  induction l as [|x l IH]; simpl; [discriminate|].
  destruct (lookup_last k l) as [y|].
  - intros [= <-]. destruct (IH eq_refl). auto.
  - destruct (key_eqb (key x) k) eqn:E; [|discriminate].
    intros [= <-]. apply key_eqb_eq in E. auto.
Qed.

Lemma lookup_last_None (k : Key) (l : list Row) :
  lookup_last k l = None <-> forall r, In r l -> key r <> k.
Proof.
  induction l as [|x l IH]; simpl.
  - split; [intros _ r []|reflexivity].
  - destruct (lookup_last k l) as [y|] eqn:E.
    + split; [discriminate|]. intros H. exfalso.
      destruct (lookup_last_Some _ _ _ E) as [Hy Hk].
      apply (H y); auto.
    + destruct (key_eqb (key x) k) eqn:Ex.
      * split; [discriminate|]. intros H. exfalso.
        apply key_eqb_eq in Ex. apply (H x); auto.
      * split; [|reflexivity]. intros _ r [<-|Hr].
        -- now apply key_eqb_neq.
        -- now apply (proj1 IH).
Qed.

Lemma existsb_same_key (r : Row) (l : list Row) :
  existsb (fun r' => key_eqb (key r) (key r')) l = false <->
  lookup_last (key r) l = None.
Proof.
  rewrite lookup_last_None. split.
  - intros H x Hx Hk.
    assert (existsb (fun r' => key_eqb (key r) (key r')) l = true) as E.
    { apply existsb_exists. exists x. split; [assumption|]. now apply key_eqb_eq. }
    congruence.
  - intros H. destruct (existsb _ l) eqn:E; [|reflexivity].
    apply existsb_exists in E. destruct E as [x [Hx Hk]].
    apply key_eqb_eq in Hk. exfalso. apply (H x Hx). congruence.
Qed.

(** [keep='last'] keeps exactly the rows that are the last of their key. *)
Lemma drop_duplicates_rows_In (l : list Row) (r : Row) :
  In r (drop_duplicates_rows l) <-> lookup_last (key r) l = Some r.
Proof.
  induction l as [|x l IH]; simpl.
  - split; [intros []|discriminate].
  - destruct (existsb (fun r' => key_eqb (key x) (key r')) l) eqn:E.
    + rewrite IH. destruct (lookup_last (key r) l) as [y|] eqn:El; [reflexivity|].
      split; [discriminate|].
      destruct (key_eqb (key x) (key r)) eqn:Ek; [|discriminate].
      intros [= ->]. exfalso.
      assert (lookup_last (key r) l = None -> False) as F; [|auto].
      intros Hn. apply existsb_same_key in Hn. congruence.
    + apply existsb_same_key in E. simpl. rewrite IH.
      destruct (lookup_last (key r) l) as [y|] eqn:El.
      * split; [|auto]. intros [<-|H]; [congruence|assumption].
      * destruct (key_eqb (key x) (key r)) eqn:Ek.
        -- split; [intros [->|]; [reflexivity|discriminate]|intros [= ->]; auto].
        -- split; [|discriminate]. intros [<-|]; [|discriminate].
           now rewrite key_eqb_refl in Ek.
Qed.

Lemma drop_duplicates_rows_NoDup (l : list Row) :
  NoDup (map key (drop_duplicates_rows l)).
Proof.
  induction l as [|x l IH]; simpl; [constructor|].
  destruct (existsb (fun r' => key_eqb (key x) (key r')) l) eqn:E; [assumption|].
  simpl. constructor; [|assumption].
  intros Hin. apply in_map_iff in Hin. destruct Hin as [y [Hk Hy]].
  apply drop_duplicates_rows_In in Hy. apply lookup_last_Some in Hy.
  apply existsb_same_key in E. rewrite lookup_last_None in E.
  apply (E y); tauto.
Qed.

Lemma insert_row_In (r x : Row) (l : list Row) :
  In x (insert_row r l) <-> x = r \/ In x l.
Proof.
  induction l as [|y l IH]; simpl.
  - intuition.
  - destruct (key_leb (key r) (key y)); simpl; [intuition|].
    rewrite IH. intuition.
Qed.

Lemma sort_rows_In (x : Row) (l : list Row) : In x (sort_rows l) <-> In x l.
Proof.
  induction l as [|r l IH]; simpl; [reflexivity|].
  rewrite insert_row_In, IH. intuition.
Qed.

Lemma insert_row_length (r : Row) (l : list Row) :
  List.length (insert_row r l) = S (List.length l).
Proof.
  induction l as [|y l IH]; simpl; [reflexivity|].
  destruct (key_leb (key r) (key y)); simpl; auto.
Qed.

Lemma sort_rows_length (l : list Row) : List.length (sort_rows l) = List.length l.
Proof.
  induction l as [|r l IH]; simpl; [reflexivity|].
  now rewrite insert_row_length, IH.
Qed.

Lemma insert_row_ascending (r : Row) (l : list Row) :
  strictly_ascending l -> (forall x, In x l -> key x <> key r) ->
  strictly_ascending (insert_row r l).
Proof.
  induction l as [|y l IH]; intros Hs Hne; simpl.
  - repeat constructor.
  - destruct (key_leb (key r) (key y)) eqn:E.
    + assert (row_lt r y) as Hry.
      { apply key_leb_true_neq_lt; [assumption|].
        intros Heq. apply (Hne y); simpl; auto. }
      apply strictly_ascending_cons. split; [assumption|].
      apply strictly_ascending_cons in Hs. destruct Hs as [_ Hf].
      constructor; [assumption|].
      rewrite Forall_forall in *. intros z Hz.
      eapply key_lt_trans; [exact Hry|]. now apply Hf.
    + apply key_leb_false_lt in E.
      apply strictly_ascending_cons in Hs. destruct Hs as [Hs Hf].
      apply strictly_ascending_cons. split.
      * apply IH; [assumption|]. intros z Hz. apply Hne. now right.
      * rewrite Forall_forall in *. intros z Hz.
        apply insert_row_In in Hz. destruct Hz as [->|Hz]; [exact E|now apply Hf].
Qed.

Lemma sort_rows_ascending (l : list Row) :
  NoDup (map key l) -> strictly_ascending (sort_rows l).
Proof.
  induction l as [|r l IH]; simpl; intros Hn.
  - constructor.
  - inversion Hn as [|? ? Hnotin Hn']; subst.
    apply insert_row_ascending; [auto|].
    intros x Hx Hk. apply (proj1 (sort_rows_In x l)) in Hx.
    apply Hnotin. rewrite <- Hk. now apply (in_map key).
Qed.

(** Sorting leaves a strictly ascending list as it is. *)
Lemma sort_rows_sorted (l : list Row) :
  strictly_ascending l -> sort_rows l = l.
Proof.
  intros Hs. apply strictly_ascending_ext; [|assumption|intros r; apply sort_rows_In].
  apply sort_rows_ascending. now apply strictly_ascending_NoDup.
Qed.

Lemma find_NoDup (k : Key) (l : list Row) :
  NoDup (map key l) -> find (fun r => key_eqb (key r) k) l = lookup_last k l.
Proof.
  induction l as [|x l IH]; simpl; intros Hn; [reflexivity|].
  inversion Hn as [|? ? Hnotin Hn']; subst.
  destruct (key_eqb (key x) k) eqn:E.
  - apply key_eqb_eq in E. subst k.
    destruct (lookup_last (key x) l) as [y|] eqn:El; [|reflexivity].
    exfalso. apply lookup_last_Some in El. destruct El as [Hy Hk].
    apply Hnotin. rewrite <- Hk. now apply (in_map key).
  - rewrite (IH Hn'). now destruct (lookup_last k l).
Qed.

(** ** The merge *)

Lemma merge_rows (current incoming : DataFrame) :
  rows (merge current incoming) =
  sort_rows (drop_duplicates_rows (rows current ++ rows incoming)).
Proof. reflexivity. Qed.

Lemma merge_ascending (current incoming : DataFrame) :
  strictly_ascending (rows (merge current incoming)).
Proof.
  rewrite merge_rows. apply sort_rows_ascending, drop_duplicates_rows_NoDup.
Qed.

Lemma merge_In (current incoming : DataFrame) (r : Row) :
  In r (rows (merge current incoming)) <->
  lookup_last (key r) (rows current ++ rows incoming) = Some r.
Proof.
  rewrite merge_rows, sort_rows_In. apply drop_duplicates_rows_In.
Qed.

Lemma lookup_last_ascending (k : Key) (l : list Row) (r : Row) :
  strictly_ascending l ->
  (lookup_last k l = Some r <-> In r l /\ key r = k).
Proof.
  intros Hs. split; [apply lookup_last_Some|].
  intros [Hin Hk]. destruct (lookup_last k l) as [y|] eqn:E.
  - apply lookup_last_Some in E. destruct E as [Hy Hky].
    f_equal. apply strictly_ascending_NoDup in Hs.
    clear - Hs Hin Hy Hk Hky. subst k. induction l as [|x l IH]; [destruct Hin|].
    simpl in Hs. inversion Hs as [|? ? Hnotin Hn']; subst.
    destruct Hin as [->|Hin], Hy as [->|Hy]; auto.
    + exfalso. apply Hnotin. rewrite <- Hky. now apply (in_map key).
    + exfalso. apply Hnotin. rewrite Hky. now apply (in_map key).
  - exfalso. rewrite lookup_last_None in E. now apply (E r).
Qed.

Lemma merge_lookup (current incoming : DataFrame) (k : Key) :
  lookup_last k (rows (merge current incoming)) =
  lookup_last k (rows current ++ rows incoming).
Proof.
  destruct (lookup_last k (rows current ++ rows incoming)) as [r|] eqn:E.
  - apply lookup_last_ascending; [apply merge_ascending|].
    pose proof (lookup_last_Some _ _ _ E) as [_ Hk]. split; [|assumption].
    apply merge_In. now rewrite Hk.
  - apply lookup_last_None. intros r Hr Hk. apply merge_In in Hr.
    rewrite Hk in Hr. congruence.
Qed.

Lemma has_column_In (c : string) (cols : list string) :
  has_column c cols = true <-> In c cols.
Proof.
  unfold has_column. rewrite existsb_exists. split.
  - intros [x [Hx E]]. apply String.eqb_eq in E. now subst.
  - intros H. exists c. split; [assumption|apply String.eqb_refl].
Qed.

Lemma filter_none {A} (f : A -> bool) (l : list A) :
  (forall x, In x l -> f x = false) -> filter f l = [].
Proof.
  induction l as [|x l IH]; simpl; intros H; [reflexivity|].
  rewrite (H x (or_introl eq_refl)). apply IH. auto.
Qed.

Lemma concat_columns_idem (ca cb : list string) :
  concat_columns (concat_columns ca cb) cb = concat_columns ca cb.
Proof.
  unfold concat_columns at 1. rewrite filter_none; [apply app_nil_r|].
  intros c Hc. apply negb_false_iff, has_column_In.
  unfold concat_columns. apply in_or_app.
  destruct (has_column c ca) eqn:E.
  - left. now apply has_column_In.
  - right. apply filter_In. split; [assumption|]. now rewrite E.
Qed.


(** ** The cap *)

Lemma cap_rows (df : DataFrame) :
  rows (cap df) = skipn (len df - MAX_ROWS) (rows df).
Proof.
  unfold cap. destruct (MAX_ROWS <? len df) eqn:E; [reflexivity|].
  apply Nat.ltb_ge in E.
  replace (len df - MAX_ROWS) with 0 by (generalize MAX_ROWS E; intros; lia).
  reflexivity.
Qed.

Lemma cap_columns (df : DataFrame) : columns (cap df) = columns df.
Proof. unfold cap. now destruct (MAX_ROWS <? len df). Qed.

Lemma strictly_ascending_app (a b : list Row) :
  strictly_ascending (a ++ b) <->
  strictly_ascending a /\ strictly_ascending b /\
  (forall x y, In x a -> In y b -> row_lt x y).
Proof.
  induction a as [|r a IH]; simpl.
  - split; [intros H|tauto]. repeat split; [constructor|assumption|intros ? ? []].
  - rewrite !strictly_ascending_cons, IH, !Forall_forall. split.
    + intros [[Ha [Hb Hab]] Hr]. repeat split; auto.
      * intros x Hx. apply Hr, in_or_app. auto.
      * intros x y [<-|Hx] Hy; [apply Hr, in_or_app|]; auto.
    + intros [[Ha Hr] [Hb Hab]]. repeat split; auto.
      intros x Hx. apply in_app_or in Hx. destruct Hx; auto.
Qed.

Lemma cap_ascending (df : DataFrame) :
  strictly_ascending (rows df) -> strictly_ascending (rows (cap df)).
Proof.
  rewrite cap_rows. intros H.
  rewrite <- (firstn_skipn (len df - MAX_ROWS) (rows df)) in H.
  now apply strictly_ascending_app in H.
Qed.

Lemma cap_split (df : DataFrame) :
  rows df = firstn (len df - MAX_ROWS) (rows df) ++ rows (cap df).
Proof. rewrite cap_rows. symmetry. apply firstn_skipn. Qed.

Lemma cap_len (df : DataFrame) : len (cap df) = Nat.min (len df) MAX_ROWS.
Proof.
  unfold len at 1. rewrite cap_rows, length_skipn. fold (len df).
  generalize MAX_ROWS (len df). intros; lia.
Qed.

Lemma cap_small (df : DataFrame) : len df <= MAX_ROWS -> cap df = df.
Proof.
  intros H. unfold cap. apply Nat.ltb_ge in H. now rewrite H.
Qed.

Arguments cap : simpl never.
Arguments merge : simpl never.
Arguments has_required_cols : simpl never.

(** ** One iteration, path by path *)

Lemma iteration_paths (env : Env) (w : World) :
  iteration env w =
  match r_exit env with
  | LaunchFailed => (Raise OSError, w)
  | Undecodable _ => (Raise UnicodeDecodeError, after_script env w)
  | ExitNonZero => (Ok RScriptError, after_script env w)
  | Exit0 =>
      match r_output env with
      | None => (Ok OutputMissing, after_script env w)
      | Some _ =>
          match process_batch env (after_script env w) with
          | (Ok o, w') => (Ok o, w')
          | (Raise _, w') => (Ok ProcessingError, w')
          end
      end
  end.
Proof.
  unfold iteration, subprocess_run, try_except, bind, modify, ret, raise, get,
    after_script.
  destruct (r_exit env); simpl; try reflexivity.
  destruct (r_output env); reflexivity.
Qed.

(** The world [save_atomic] leaves, by what the file system lets through. *)
Lemma save_atomic_paths (env : Env) (df : DataFrame) (w : World) :
  save_atomic env df w =
  match to_csv env with
  | Written =>
      if replace_ok env
      then (Ok tt, set_tmp_file None
                     (set_automation_file (Some (Table df))
                        (set_tmp_file (Some (Table df)) w)))
      else (Raise OSError, set_tmp_file (Some (Table df)) w)
  | WriteFails => (Raise OSError, set_tmp_file (Some Unreadable) w)
  | OpenFails => (Raise OSError, w)
  end.
Proof.
  unfold save_atomic, bind, modify, ret, raise, get.
  destruct (to_csv env), (replace_ok env); reflexivity.
Qed.

Lemma process_batch_rejected (env : Env) (w : World) :
  accepted_batch w = None ->
  master_df (snd (process_batch env w)) = master_df w /\
  automation_file (snd (process_batch env w)) = automation_file w /\
  tmp_file (snd (process_batch env w)) = tmp_file w.
Proof.
  unfold accepted_batch, process_batch, bind, get, read_csv, ret, raise, lift,
    os_remove, modify.
  destruct (expected_csv w) as [[|f]|]; simpl; auto.
  destruct (empty f); simpl.
  - intros _. destruct (remove_ok env); simpl; auto.
  - destruct (has_required_cols f); simpl.
    + destruct (transform f); [discriminate|]. simpl. auto.
    + intros _. destruct (remove_ok env); simpl; auto.
Qed.

Lemma process_batch_accepted (env : Env) (w : World) (b : DataFrame) :
  accepted_batch w = Some b ->
  let m := cap (merge (master_df w) b) in
  let w1 := set_master_df m w in
  process_batch env w =
  match save_atomic env m w1 with
  | (Ok _, w2) =>
      if remove_ok env
      then (Ok (Success (len b) (len m)),
            set_expected_csv None (report (len b) (len m) w2))
      else (Raise OSError, report (len b) (len m) w2)
  | (Raise e, w2) => (Raise e, w2)
  end.
Proof.
  unfold accepted_batch, process_batch, bind, get, read_csv, ret, raise, lift,
    os_remove, modify.
  destruct (expected_csv w) as [[|f]|]; try discriminate. simpl.
  destruct (empty f); simpl; [discriminate|].
  destruct (has_required_cols f); simpl; [|discriminate].
  destruct (transform f) as [pb|]; [|discriminate].
  intros [= ->]. simpl.
  destruct (save_atomic env _ _) as [[[]|e] w2]; [|reflexivity].
  destruct (remove_ok env); reflexivity.
Qed.

Lemma process_batch_expected_csv (env : Env) (w : World) :
  match process_batch env w with
  | (Ok _, w') => expected_csv w' = None
  | (Raise _, w') => expected_csv w' = expected_csv w
  end.
Proof.
  unfold process_batch, bind, get, read_csv, ret, raise, lift, os_remove,
    modify, save_atomic.
  destruct (expected_csv w) as [[|f]|] eqn:E; simpl; auto.
  destruct (empty f); simpl.
  - destruct (remove_ok env); simpl; auto.
  - destruct (has_required_cols f); simpl.
    + destruct (transform f); simpl; auto.
      destruct (to_csv env); simpl; auto.
      destruct (replace_ok env); simpl; auto.
      destruct (remove_ok env); simpl; auto.
    + destruct (remove_ok env); simpl; auto.
Qed.

(** ** The claims on the history store *)

(** C1. [merge] takes its rows from the concatenation of the current table
    and the incoming batch, holds for every key the last row of that key,
    which is the incoming one whenever the batch has the key, and is
    ascending by (Date, Time).  With existing row (D,T,5,5,5,0,0) and
    incoming row (D,T,7,7,7,0,0) the row for (D,T) is (D,T,7,7,7,0,0). *)
Theorem merge_incoming_wins (current incoming : DataFrame) :
  incl (rows (merge current incoming)) (rows current ++ rows incoming) /\
  (forall k,
     row_for k (merge current incoming) =
     match lookup_last k (rows incoming) with
     | Some r => Some r
     | None => lookup_last k (rows current)
     end) /\
  strictly_ascending (rows (merge current incoming)) /\
  (forall D T,
     rows (merge (mkFrame final_cols [wide D T 5 5 5 0 0])
                 (mkFrame final_cols [wide D T 7 7 7 0 0])) =
     [wide D T 7 7 7 0 0]).
Proof.
  repeat split.
  - intros r Hr. apply merge_In, lookup_last_Some in Hr. tauto.
  - intros k. unfold row_for.
    rewrite find_NoDup by apply strictly_ascending_NoDup, merge_ascending.
    rewrite merge_lookup. apply lookup_last_app.
  - apply merge_ascending.
  - intros D T. rewrite merge_rows. simpl.
    unfold key at 1 2. simpl. now rewrite key_eqb_refl.
Qed.

(** C2. The table a merge returns is strictly ascending by (Date, Time) and
    holds no key twice, and so is the table left by the cap; an iteration of
    the loop either leaves the master table as it was or leaves it strictly
    ascending with distinct keys. *)
Theorem master_sorted_unique (current incoming : DataFrame) (env : Env) (w : World) :
  (strictly_ascending (rows (merge current incoming)) /\
   NoDup (map key (rows (merge current incoming)))) /\
  (strictly_ascending (rows (cap (merge current incoming))) /\
   NoDup (map key (rows (cap (merge current incoming))))) /\
  (master_df (snd (iteration env w)) = master_df w \/
   (strictly_ascending (rows (master_df (snd (iteration env w)))) /\
    NoDup (map key (rows (master_df (snd (iteration env w))))))).
Proof.
  assert (forall a b, strictly_ascending (rows (cap (merge a b)))) as Hcap.
  { intros a b. apply cap_ascending, merge_ascending. }
  split; [|split].
  - split; [|apply strictly_ascending_NoDup]; apply merge_ascending.
  - split; [|apply strictly_ascending_NoDup]; apply Hcap.
  - rewrite iteration_paths.
    destruct (r_exit env); simpl; auto.
    destruct (r_output env) as [c|]; simpl; auto.
    destruct (accepted_batch (after_script env w)) as [b|] eqn:E.
    + right. rewrite (process_batch_accepted _ _ _ E), save_atomic_paths.
      destruct (to_csv env), (replace_ok env), (remove_ok env); simpl;
        (split; [|apply strictly_ascending_NoDup]; apply Hcap).
    + left. pose proof (process_batch_rejected env _ E) as [Hm _].
      destruct (process_batch env (after_script env w)) as [[o|e] w']; exact Hm.
Qed.

(** C3. At line 130 the cap meets the table sorted at line 126.  When that
    table has more than 5000 rows the capped table has exactly 5000, they are
    a suffix of the table, and every evicted row is strictly below every
    retained row; a table of at most 5000 rows is left as it is. *)
Theorem cap_keeps_most_recent (current incoming : DataFrame) :
  MAX_ROWS = 5000 /\
  (MAX_ROWS < len (merge current incoming) ->
   len (cap (merge current incoming)) = MAX_ROWS /\
   exists evicted,
     rows (merge current incoming) = evicted ++ rows (cap (merge current incoming)) /\
     List.length evicted = len (merge current incoming) - MAX_ROWS /\
     forall e r, In e evicted -> In r (rows (cap (merge current incoming))) ->
                 row_lt e r) /\
  (len (merge current incoming) <= MAX_ROWS ->
   cap (merge current incoming) = merge current incoming).
Proof.
  split; [reflexivity|]. split; [|apply cap_small].
  intros Hlt. split.
  - rewrite cap_len. generalize MAX_ROWS Hlt. intros; lia.
  - exists (firstn (len (merge current incoming) - MAX_ROWS)
                   (rows (merge current incoming))).
    split; [apply cap_split|]. split.
    + rewrite length_firstn. fold (len (merge current incoming)).
      generalize MAX_ROWS (len (merge current incoming)). intros; lia.
    + pose proof (merge_ascending current incoming) as Hs.
      rewrite (cap_split (merge current incoming)) in Hs.
      apply strictly_ascending_app in Hs. tauto.
Qed.

(** C6. Merging a batch into the history and merging the same batch into
    the result again gives the table of the first merge. *)
Theorem merge_idempotent (H B : DataFrame) :
  merge (merge H B) B = merge H B.
Proof.
  assert (rows (merge (merge H B) B) = rows (merge H B)) as Hrows.
  { apply strictly_ascending_ext; try apply merge_ascending.
    intros r. rewrite !merge_In, !lookup_last_app, merge_lookup, lookup_last_app.
    now destruct (lookup_last (key r) (rows B)). }
  assert (columns (merge (merge H B) B) = columns (merge H B)) as Hcols.
  { apply concat_columns_idem. }
  destruct (merge (merge H B) B), (merge H B). simpl in *. congruence.
Qed.

(** ** The pivot *)

Section SortedUniqueFacts.
Variable A : Type.
Variable cmp : A -> A -> comparison.
Hypothesis cmp_eq : forall a b, cmp a b = Eq <-> a = b.
Hypothesis cmp_antisym : forall a b, cmp a b = CompOpp (cmp b a).
Hypothesis cmp_trans : forall a b c, cmp a b = Lt -> cmp b c = Lt -> cmp a c = Lt.

Lemma insert_unique_In (a x : A) (l : list A) :
  In x (insert_unique cmp a l) <-> x = a \/ In x l.
Proof.
  induction l as [|y l IH]; simpl; [intuition|].
  destruct (cmp a y) eqn:E; simpl.
  - apply cmp_eq in E. subst. intuition.
  - intuition.
  - rewrite IH. intuition.
Qed.

Lemma sorted_unique_In (x : A) (l : list A) :
  In x (sorted_unique cmp l) <-> In x l.
Proof.
  induction l as [|a l IH]; simpl; [reflexivity|].
  rewrite insert_unique_In, IH. intuition.
Qed.

Lemma insert_unique_sorted (a : A) (l : list A) :
  StronglySorted (cmp_lt cmp) l -> StronglySorted (cmp_lt cmp) (insert_unique cmp a l).
Proof.
  induction l as [|y l IH]; simpl; intros Hs.
  - repeat constructor.
  - inversion Hs as [|? ? Hs' Hf]; subst.
    destruct (cmp a y) eqn:E.
    + assumption.
    + constructor; [assumption|]. constructor; [exact E|].
      rewrite Forall_forall in *. intros z Hz.
      apply (cmp_trans a y z E). now apply Hf.
    + constructor; [auto|].
      rewrite Forall_forall in *. intros z Hz.
      apply insert_unique_In in Hz. destruct Hz as [->|Hz]; [|now apply Hf].
      unfold cmp_lt. rewrite cmp_antisym, E. reflexivity.
Qed.

Lemma sorted_unique_sorted (l : list A) :
  StronglySorted (cmp_lt cmp) (sorted_unique cmp l).
Proof.
  induction l as [|a l IH]; simpl; [constructor|].
  now apply insert_unique_sorted.
Qed.

End SortedUniqueFacts.

Lemma pivot_index_In (l : list Observation) (k : Key) :
  In k (pivot_index l) <-> exists r, In r l /\ long_key r = k.
Proof.
  unfold pivot_index. rewrite (sorted_unique_In _ _ key_compare_eq), in_map_iff.
  split; intros [r [H1 H2]]; exists r; auto.
Qed.


Lemma pivot_labels_In (l : list Observation) (c : string) :
  In c (pivot_labels l) <-> exists r, In r l /\ obs_label r = c.
Proof.
  unfold pivot_labels. rewrite (sorted_unique_In _ _ StrOrd.compare_eq), in_map_iff.
  split; intros [r [H1 H2]]; exists r; auto.
Qed.

Lemma pivot_cell_unlabelled (l : list Observation) (k : Key) (c : string) :
  ~ In c (pivot_labels l) -> pivot_cell k c l = 0%Q.
Proof.
  intros Hc. unfold pivot_cell, group_values.
  rewrite filter_none; [reflexivity|].
  intros r Hr. apply andb_false_iff. right. apply String.eqb_neq.
  intros Heq. apply Hc, pivot_labels_In. eauto.
Qed.

Lemma ensure_column_pivot_frame (l : list Observation) (cols : list string) (c : string) :
  c <> "Date" -> c <> "Time" ->
  incl (pivot_labels l) cols ->
  ensure_column (pivot_frame l cols) c = pivot_frame l (add_column c cols).
Proof.
  intros Hd Ht Hincl. unfold ensure_column, add_column, pivot_frame.
  cbn [columns has_column existsb].
  apply String.eqb_neq in Hd, Ht. rewrite Hd, Ht. cbn [orb].
  fold (has_column c cols). destruct (has_column c cols) eqn:E; [reflexivity|].
  unfold assign_column. cbn [columns rows Date Time cells]. f_equal.
  rewrite map_map. apply map_ext. intros k. cbn [Date Time cells]. f_equal.
  rewrite map_app. cbn [map]. do 3 f_equal.
  symmetry. apply pivot_cell_unlabelled. intros Hin.
  apply Hincl, has_column_In in Hin. congruence.
Qed.

Lemma add_column_incl (c : string) (cols : list string) : incl cols (add_column c cols).
Proof.
  unfold add_column. destruct (has_column c cols); [apply incl_refl|].
  apply incl_appl, incl_refl.
Qed.

Lemma add_column_has (c : string) (cols : list string) :
  has_column c (add_column c cols) = true.
Proof.
  unfold add_column. destruct (has_column c cols) eqn:E; [assumption|].
  apply has_column_In, in_or_app. right. now left.
Qed.

Lemma has_column_incl (c : string) (a b : list string) :
  incl a b -> has_column c a = true -> has_column c b = true.
Proof. rewrite !has_column_In. auto. Qed.

Lemma cell_pivot_row (d t c : string) (g : string -> Q) (cols : list string) :
  has_column c cols = true ->
  cell c (mkRow d t (map (fun c => (c, g c)) cols)) = Some (g c).
Proof.
  unfold cell. cbn [cells]. induction cols as [|x cols IH]; [discriminate|].
  cbn [has_column existsb map find fst]. fold (has_column c cols).
  destruct (String.eqb c x) eqn:E.
  - apply String.eqb_eq in E. now subst.
  - cbn [orb]. exact IH.
Qed.

Lemma pivot_table_unreserved (new_data : LongFrame) :
  (forall o, In o (dropna (records new_data)) -> ~ In (obs_label o) reserved_names) ->
  pivot_table new_data =
  Ok (pivot_frame (dropna (records new_data)) (pivot_labels (dropna (records new_data)))).
Proof.
  intros Hres. unfold pivot_table.
  assert (forall c, In c reserved_names ->
                    has_column c (pivot_labels (dropna (records new_data))) = false) as Hno.
  { intros c Hc. destruct (has_column c _) eqn:E; [|reflexivity].
    apply has_column_In, pivot_labels_In in E. destruct E as [r [Hr Hcl]].
    exfalso. apply (Hres r Hr). now rewrite Hcl. }
  rewrite !Hno by (simpl; tauto). reflexivity.
Qed.

Lemma transform_wide_rows (new_data : LongFrame) :
  (forall o, In o (dropna (records new_data)) -> ~ In (obs_label o) reserved_names) ->
  transform new_data =
  Ok (mkFrame final_cols
              (map (wide_row (dropna (records new_data))) (pivot_index (dropna (records new_data))))).
Proof.
  intros Hres. unfold transform. rewrite (pivot_table_unreserved _ Hres).
  set (l := dropna (records new_data)). set (c0 := pivot_labels l).
  set (c1 := add_column "Bacteria" c0). set (c2 := add_column "Fungi" c1).
  set (c3 := add_column "Pollen" c2). set (c4 := add_column "PM2.5" c3).
  set (c5 := add_column "PM10" c4).
  assert (incl c0 c1 /\ incl c1 c2 /\ incl c2 c3 /\ incl c3 c4 /\ incl c4 c5)
    as (I1 & I2 & I3 & I4 & I5) by (repeat split; apply add_column_incl).
  cbn [fold_left].
  rewrite (ensure_column_pivot_frame l c0) by (try discriminate; apply incl_refl).
  fold c1.
  rewrite (ensure_column_pivot_frame l c1) by (try discriminate; assumption).
  fold c2.
  rewrite (ensure_column_pivot_frame l c2)
    by (try discriminate; eauto using incl_tran).
  fold c3.
  rewrite (ensure_column_pivot_frame l c3)
    by (try discriminate; eauto using incl_tran).
  fold c4.
  rewrite (ensure_column_pivot_frame l c4)
    by (try discriminate; eauto 6 using incl_tran).
  fold c5.
  assert (has_column "Bacteria" c5 = true) as H1
    by (eapply has_column_incl; [|apply add_column_has]; eauto 6 using incl_tran).
  assert (has_column "Fungi" c5 = true) as H2
    by (eapply has_column_incl; [|apply add_column_has]; eauto 6 using incl_tran).
  assert (has_column "Pollen" c5 = true) as H3
    by (eapply has_column_incl; [|apply add_column_has]; eauto 6 using incl_tran).
  assert (has_column "PM2.5" c5 = true) as H4
    by (eapply has_column_incl; [|apply add_column_has]; eauto 6 using incl_tran).
  assert (has_column "PM10" c5 = true) as H5 by apply add_column_has.
  assert (filter (fun c => has_column c (columns (pivot_frame l c5))) final_cols
          = final_cols) as ->.
  { unfold pivot_frame, final_cols. cbn [columns filter].
    cbn [has_column existsb]. unfold has_column in H1, H2, H3, H4, H5.
    rewrite H1, H2, H3, H4, H5. reflexivity. }
  unfold select, pivot_frame. cbn [rows]. f_equal. f_equal.
  rewrite map_map. apply map_ext. intros k.
  unfold wide_row, wide. cbn [Date Time]. f_equal.
  cbn [final_cols filter String.eqb Ascii.eqb Bool.eqb orb negb flat_map].
  rewrite !cell_pivot_row by assumption. reflexivity.
Qed.

Lemma key_wide_row (l : list Observation) (k : Key) : key (wide_row l k) = k.
Proof. now destruct k. Qed.

(** ** The claims on the transform *)

Lemma dropna_In (l : list LongRow) (o : Observation) :
  In o (dropna l) <-> exists r, In r l /\ observation r = Some o.
Proof.
  unfold dropna. rewrite in_flat_map. split.
  - intros [r [Hr Ho]]. exists r. split; [assumption|].
    destruct (observation r) as [x|]; [|destruct Ho].
    destruct Ho as [->|[]]. reflexivity.
  - intros [r [Hr Ho]]. exists r. split; [assumption|]. rewrite Ho. now left.
Qed.

Lemma dropna_length (l : list LongRow) :
  List.length (dropna l) <= List.length l.
Proof.
  induction l as [|r l IH]; [apply le_n|].
  change (dropna (r :: l))
    with ((match observation r with Some o => [o] | None => [] end) ++ dropna l).
  rewrite length_app. destruct (observation r); simpl; lia.
Qed.

(** The groups of the pivot are the (date, time) pairs of the records that
    have all four cells. *)
Lemma dropna_keys (l : list LongRow) (k : Key) :
  (exists o, In o (dropna l) /\ long_key o = k) <->
  (exists r d t c v,
     In r l /\ date r = Some d /\ time r = Some t /\
     classification r = Some c /\ conc r = Some v /\ k = (d, t)).
Proof.
  split.
  - intros [o [Ho Hk]]. apply dropna_In in Ho. destruct Ho as [r [Hr Hobs]].
    unfold observation in Hobs.
    destruct (date r) as [d|] eqn:Ed; [|discriminate].
    destruct (time r) as [t|] eqn:Et; [|discriminate].
    destruct (classification r) as [c|] eqn:Ec; [|discriminate].
    destruct (conc r) as [v|] eqn:Ev; [|discriminate].
    injection Hobs as <-. exists r, d, t, c, v. repeat split; auto.
  - intros (r & d & t & c & v & Hr & Ed & Et & Ec & Ev & ->).
    exists (mkObs d t c v). split; [|reflexivity].
    apply dropna_In. exists r. split; [assumption|].
    unfold observation. now rewrite Ed, Et, Ec, Ev.
Qed.




(** ** The claims on loading and on the loop *)

(** C7. [load_existing_history] returns without raising and leaves the world
    as it is.  It returns the frame of the file when the file exists, can be
    read and has both a [Date] and a [Time] column; it returns the empty
    frame over the canonical columns when the file is absent, cannot be read,
    or lacks one of the two columns. *)
Theorem load_never_fails (w : World) :
  load_existing_history w =
    (Ok (match automation_file w with
         | Some (Table df) =>
             if (has_column "Date" (columns df) && has_column "Time" (columns df))%bool
             then df else empty_history
         | Some Unreadable => empty_history
         | None => empty_history
         end), w) /\
  columns empty_history = final_cols /\
  rows empty_history = [].
Proof.
  split; [|split; reflexivity].
  unfold load_existing_history, bind, get, try_except, read_csv, ret, raise.
  destruct (automation_file w) as [[|df]|]; simpl; try reflexivity.
  destruct (has_column "Date" (columns df) && has_column "Time" (columns df))%bool;
    reflexivity.
Qed.




(** C5, as the spec words it, fails: with the disk full during [os.replace]
    the iteration does not raise. *)
Lemma persist_failure_not_fatal :
  ~ persist_failure_is_fatal disk_full_env stored_world.
Proof.
  intros H. destruct H as [e [w' H]].
  - reflexivity.
  - vm_compute. discriminate.
  - reflexivity.
  - vm_compute in H. discriminate.
Qed.

(** C5, amended.  The [try] statement of lines 80-148 never raises, whatever
    its body meets, and the history file after an iteration is the one from
    before or the whole new master table.  A persist that fails does so
    inside that [try]: the iteration ends on the "Error processing CSV data"
    path, the history file is the one from before, the batch file is still
    there, no "Success!" line is printed, and the master table in memory is
    already the capped merge. *)
Theorem persist_failure_contained (env : Env) (w : World) :
  (forall w0, exists o,
     fst (try_except (process_batch env) isinstance_Exception
            (fun _ => ret ProcessingError) w0) = Ok o) /\
  (automation_file (snd (iteration env w)) = automation_file w \/
   automation_file (snd (iteration env w)) =
     Some (Table (master_df (snd (iteration env w))))) /\
  (forall b,
     r_exit env = Exit0 ->
     accepted_batch (after_script env w) = Some b ->
     save_fails env = true ->
     fst (iteration env w) = Ok ProcessingError /\
     automation_file (snd (iteration env w)) = automation_file w /\
     expected_csv (snd (iteration env w)) = r_output env /\
     reported (snd (iteration env w)) = reported w /\
     master_df (snd (iteration env w)) = cap (merge (master_df w) b)).
Proof.
  split; [|split].
  - intros w0. unfold try_except, isinstance_Exception, ret.
    destruct (process_batch env w0) as [[o|e] w']; simpl; eauto.
  - rewrite iteration_paths.
    destruct (r_exit env); try (now left).
    destruct (r_output env) as [c|] eqn:Hout; [|now left].
    destruct (accepted_batch (after_script env w)) as [b|] eqn:E.
    + rewrite (process_batch_accepted _ _ _ E), save_atomic_paths.
      destruct (to_csv env), (replace_ok env), (remove_ok env); simpl; auto.
    + pose proof (process_batch_rejected env _ E) as (Hm & Ha & Ht).
      destruct (process_batch env (after_script env w)) as [[o|e] w'];
        simpl in *; now left.
  - intros b Hexit E Hfail. rewrite iteration_paths, Hexit.
    assert (r_output env <> None) as Hout.
    { intros Hn. unfold accepted_batch, after_script in E. simpl in E.
      rewrite Hn in E. discriminate. }
    destruct (r_output env) as [c|] eqn:Hc; [clear Hout|now destruct Hout].
    rewrite (process_batch_accepted _ _ _ E), save_atomic_paths.
    unfold save_fails in Hfail.
    destruct (to_csv env), (replace_ok env); try discriminate Hfail; simpl;
      rewrite ?Hc; auto.
Qed.

Lemma persist_failure_contained_witness :
  r_exit disk_full_env = Exit0 /\
  save_fails disk_full_env = true /\
  fst (iteration disk_full_env stored_world) = Ok ProcessingError /\
  automation_file (snd (iteration disk_full_env stored_world)) =
  automation_file stored_world.
Proof.
  split; [reflexivity|]. split; [reflexivity|].
  destruct (persist_failure_contained disk_full_env stored_world)
    as (_ & _ & H).
  destruct (H example_wide eq_refl eq_refl eq_refl) as (H1 & H2 & _).
  split; [exact H1|exact H2].
Defined.

(** C10. When the script has run and left a batch file, the iteration ends
    as its [try] body does: if the body returns, the batch file is gone; if
    the body raises, the iteration ends on the error path and the batch file
    is still there.  An empty batch and a batch without the required columns
    are both deleted when [os.remove] goes through.  When the script exits
    non-zero the batch file is as the script left it, and when the script
    cannot be started the staging directory is as it was. *)
Theorem batch_file_cleanup (env : Env) (w : World) :
  (forall c, r_exit env = Exit0 -> r_output env = Some c ->
     match process_batch env (after_script env w) with
     | (Ok o, w') => iteration env w = (Ok o, w') /\ expected_csv w' = None
     | (Raise _, w') =>
         iteration env w = (Ok ProcessingError, w') /\ expected_csv w' = Some c
     end) /\
  (forall f, r_exit env = Exit0 -> r_output env = Some (Table f) ->
     remove_ok env = true ->
     (empty f = true ->
      fst (iteration env w) = Ok EmptyData /\
      expected_csv (snd (iteration env w)) = None) /\
     (empty f = false -> has_required_cols f = false ->
      fst (iteration env w) = Ok FormatUnexpected /\
      expected_csv (snd (iteration env w)) = None)) /\
  (r_exit env = ExitNonZero ->
   fst (iteration env w) = Ok RScriptError /\
   expected_csv (snd (iteration env w)) = r_output env) /\
  (r_exit env = LaunchFailed -> snd (iteration env w) = w).
Proof.
  split; [|split; [|split]].
  - intros c Hexit Hout. rewrite iteration_paths, Hexit, Hout.
    pose proof (process_batch_expected_csv env (after_script env w)) as H.
    destruct (process_batch env (after_script env w)) as [[o|e] w'];
      split; try reflexivity; try exact H.
    rewrite H. unfold after_script. simpl. exact Hout.
  - intros f Hexit Hout Hrm. rewrite iteration_paths, Hexit, Hout.
    unfold process_batch, bind, get, read_csv, ret, raise, lift, os_remove,
      modify, after_script. simpl. rewrite Hout, Hrm. split.
    + intros ->. simpl. auto.
    + intros -> ->. simpl. auto.
  - intros Hexit. rewrite iteration_paths, Hexit. simpl. auto.
  - intros Hexit. rewrite iteration_paths, Hexit. reflexivity.
Qed.

Lemma batch_file_cleanup_witness :
  expected_csv (snd (iteration good_env stored_world)) = None /\
  expected_csv (snd (iteration disk_full_env stored_world)) =
  Some (Table example_batch).
Proof.
  split.
  - pose proof (proj1 (batch_file_cleanup good_env stored_world)
                  (Table example_batch) eq_refl eq_refl) as H.
    destruct (process_batch good_env (after_script good_env stored_world))
      as [[o|e] w'] eqn:E.
    + destruct H as [-> H]. exact H.
    + vm_compute in E. discriminate.
  - pose proof (proj1 (batch_file_cleanup disk_full_env stored_world)
                  (Table example_batch) eq_refl eq_refl) as H.
    destruct (process_batch disk_full_env (after_script disk_full_env stored_world))
      as [[o|e] w'] eqn:E.
    + vm_compute in E. discriminate.
    + destruct H as [-> H]. exact H.
Defined.

(** ** A history longer than the cap *)

Lemma ascending_b_sound (l : list Row) :
  ascending_b l = true -> strictly_ascending l.
Proof.
  induction l as [|r l IH]; [constructor|].
  destruct l as [|x l]; [repeat constructor|].
  cbn [ascending_b]. intros H. apply andb_true_iff in H. destruct H as [Hlt Hs].
  constructor; [now apply IH|]. constructor.
  unfold row_lt, key_lt. unfold key_ltb in Hlt.
  now destruct (key_compare (key r) (key x)).
Qed.

Lemma yearly_rows_length (count : nat) (from : N) :
  List.length (yearly_rows count from) = count.
Proof.
  revert from. induction count as [|c IH]; intros from; simpl; auto.
Qed.

(** Merging nothing into a strictly ascending table returns its rows. *)
Lemma merge_nothing (df : DataFrame) (cols : list string) :
  strictly_ascending (rows df) -> rows (merge df (mkFrame cols [])) = rows df.
Proof.
  intros Hs. apply strictly_ascending_ext; [apply merge_ascending|assumption|].
  intros r. rewrite merge_In. cbn [rows]. rewrite app_nil_r.
  rewrite (lookup_last_ascending _ _ r Hs). tauto.
Qed.

Lemma long_history_merged :
  len (merge long_history empty_history) = S MAX_ROWS.
Proof.
  unfold len, empty_history. rewrite merge_nothing.
  - apply yearly_rows_length.
  - apply ascending_b_sound. vm_compute. reflexivity.
Qed.

Lemma cap_keeps_most_recent_witness :
  MAX_ROWS < len (merge long_history empty_history) /\
  len (cap (merge long_history empty_history)) = MAX_ROWS.
Proof.
  assert (MAX_ROWS < len (merge long_history empty_history)) as H.
  { rewrite long_history_merged. apply Nat.lt_succ_diag_r. }
  split; [exact H|].
  exact (proj1 (proj1 (proj2 (cap_keeps_most_recent long_history empty_history)) H)).
Defined.

(** * Further properties of the service *)

(** ** The readiness gate *)

Lemma string_app_assoc (a b c : string) :
  ((a ++ b) ++ c = a ++ b ++ c)%string.
Proof. induction a as [|x a IH]; simpl; [reflexivity|]. now rewrite IH. Qed.

Lemma prefix_app (n h : string) :
  String.prefix n h = true <-> exists b, h = (n ++ b)%string.
Proof.
  revert h. induction n as [|c n IH]; intros h; simpl.
  - split; [intros _; exists h; reflexivity|]. now destruct h.
  - destruct h as [|d h]; [split; [discriminate|intros [b Hb]; discriminate]|].
    cbn [String.prefix]. destruct (ascii_dec c d) as [->|Hne].
    + rewrite IH. split; intros [b Hb]; exists b; congruence.
    + split; [discriminate|]. intros [b Hb]. congruence.
Qed.

Lemma contains_app (n h : string) :
  contains n h = true <-> exists a b, h = (a ++ n ++ b)%string.
Proof.
  induction h as [|c h IH]; cbn [contains]; rewrite orb_true_iff, prefix_app.
  - split.
    + intros [[b Hb]|H]; [|discriminate]. exists "", b. exact Hb.
    + intros [a [b Hab]]. left. destruct a; [|discriminate]. now exists b.
  - rewrite IH. split.
    + intros [[b Hb]|[a [b Hab]]].
      * exists "", b. exact Hb.
      * exists (String c a), b. simpl. now rewrite Hab.
    + intros [[|c' a] [b Hab]].
      * left. now exists b.
      * right. exists a, b. simpl in Hab. congruence.
Qed.

(** X1. The gate opens exactly when some entry of the input directory has a
    name with [AQ_] somewhere in it and some entry has a name with [FT_]
    somewhere in it. *)
Theorem check_input_files_markers (files : list string) :
  check_input_files files = true <->
  (exists f a b, In f files /\ f = (a ++ "AQ_" ++ b)%string) /\
  (exists f a b, In f files /\ f = (a ++ "FT_" ++ b)%string).
Proof.
  unfold check_input_files. rewrite andb_true_iff, !existsb_exists.
  split.
  - intros [[f [Hf Ha]] [g [Hg Hb]]].
    apply contains_app in Ha, Hb.
    destruct Ha as (a & b & Ha), Hb as (a' & b' & Hb). split.
    + exists f, a, b. auto.
    + exists g, a', b'. auto.
  - intros [(f & a & b & Hf & Ha) (g & a' & b' & Hg & Hb)]. split.
    + exists f. split; [assumption|]. apply contains_app. eauto.
    + exists g. split; [assumption|]. apply contains_app. eauto.
Qed.

(** X2. The gate never closes again when entries are added to the
    directory, it is closed on an empty directory, and a single entry whose
    name carries both markers opens it. *)
Theorem check_input_files_monotone (files files' : list string) :
  incl files files' -> check_input_files files = true ->
  check_input_files files' = true /\
  check_input_files [] = false /\
  (forall a b c, check_input_files [(a ++ "AQ_" ++ b ++ "FT_" ++ c)%string] = true).
Proof.
  unfold check_input_files. intros Hincl Hready.
  split; [|split; [reflexivity|]].
  - apply andb_true_iff in Hready. destruct Hready as [Haq Hft].
    apply existsb_exists in Haq, Hft.
    destruct Haq as [f [Hf Ha]], Hft as [g [Hg Hb]].
    apply andb_true_iff. split; apply existsb_exists.
    + exists f. auto.
    + exists g. auto.
  - intros a b c. cbn [existsb]. rewrite !orb_false_r.
    apply andb_true_iff. split; apply contains_app.
    + exists a, (b ++ "FT_" ++ c)%string. reflexivity.
    + exists (a ++ "AQ_" ++ b)%string, c.
      rewrite string_app_assoc. reflexivity.
Qed.

Lemma check_input_files_monotone_witness :
  incl ["AQ_1.csv"; "FT_1.csv"] ["notes.txt"; "AQ_1.csv"; "FT_1.csv"] /\
  check_input_files ["notes.txt"; "AQ_1.csv"; "FT_1.csv"] = true.
Proof.
  assert (incl ["AQ_1.csv"; "FT_1.csv"] ["notes.txt"; "AQ_1.csv"; "FT_1.csv"]) as H.
  { intros x Hx. now right. }
  split; [exact H|].
  exact (proj1 (check_input_files_monotone _ _ H eq_refl)).
Defined.

(** X3. The waiting loop is left after [n] sleeps exactly when the [n]-th
    poll is the first one to find the inputs; it is never left while no poll
    finds them. *)
Theorem wait_for_inputs_first_ready (polls : list (list string)) (n : nat) :
  (wait_for_inputs polls = Some n <->
   (exists files, nth_error polls n = Some files /\ check_input_files files = true) /\
   (forall m files, m < n -> nth_error polls m = Some files ->
                    check_input_files files = false)) /\
  (wait_for_inputs polls = None <->
   forall files, In files polls -> check_input_files files = false).
Proof.
  split.
  - revert n. induction polls as [|p polls IH]; intros n; cbn [wait_for_inputs].
    + split; [discriminate|]. intros [[files [H _]] _]. now destruct n.
    + destruct (check_input_files p) eqn:E.
      * split.
        -- intros [= <-]. split; [exists p; auto|]. intros m files Hm. lia.
        -- intros [[files [Hn Hr]] Hfirst]. destruct n as [|n]; [reflexivity|].
           specialize (Hfirst 0 p (Nat.lt_0_succ n) eq_refl). congruence.
      * destruct n as [|n].
        -- split.
           ++ destruct (wait_for_inputs polls); discriminate.
           ++ intros [[files [[= <-] Hr]] _]. congruence.
        -- specialize (IH n). split.
           ++ destruct (wait_for_inputs polls) as [k|]; [|discriminate].
              intros [= <-]. destruct (proj1 IH eq_refl) as [Hex Hfirst].
              split; [exact Hex|]. intros [|m] files Hm Hnth.
              ** simpl in Hnth. congruence.
              ** apply (Hfirst m); [lia|exact Hnth].
           ++ intros [Hex Hfirst].
              rewrite (proj2 IH); [reflexivity|]. split; [exact Hex|].
              intros m files Hm Hnth. apply (Hfirst (S m)); [lia|exact Hnth].
  - induction polls as [|p polls IH]; cbn [wait_for_inputs].
    + split; [intros _ files []|reflexivity].
    + destruct (check_input_files p) eqn:E.
      * split; [discriminate|]. intros H. rewrite (H p (or_introl eq_refl)) in E.
        discriminate.
      * destruct (wait_for_inputs polls) as [k|]; simpl.
        -- split; [discriminate|]. intros H.
           destruct IH as [_ IH]. discriminate IH. intros files Hf.
           apply H. now right.
        -- split; [|reflexivity]. intros _ files [<-|Hf]; [exact E|].
           now apply (proj1 IH).
Qed.

(** ** Persisting *)

(** X4. [save_atomic] is all or nothing: when it returns, the history file
    holds the whole new table and no temporary file is left; when it raises,
    the history file is the one from before.  A rename that fails leaves the
    whole table in the temporary file, and a temporary file that cannot be
    opened leaves the temporary path as it was.  Neither the master table
    nor the batch file is touched, and nothing is reported. *)
Theorem save_atomic_all_or_nothing (env : Env) (df : DataFrame) (w : World) :
  master_df (snd (save_atomic env df w)) = master_df w /\
  expected_csv (snd (save_atomic env df w)) = expected_csv w /\
  reported (snd (save_atomic env df w)) = reported w /\
  match fst (save_atomic env df w) with
  | Ok _ =>
      save_fails env = false /\
      automation_file (snd (save_atomic env df w)) = Some (Table df) /\
      tmp_file (snd (save_atomic env df w)) = None
  | Raise _ =>
      save_fails env = true /\
      automation_file (snd (save_atomic env df w)) = automation_file w /\
      match to_csv env with
      | Written => tmp_file (snd (save_atomic env df w)) = Some (Table df)
      | OpenFails => tmp_file (snd (save_atomic env df w)) = tmp_file w
      | WriteFails => tmp_file (snd (save_atomic env df w)) <> None
      end
  end.
Proof.
  rewrite save_atomic_paths. unfold save_fails.
  destruct (to_csv env), (replace_ok env); simpl; repeat split; discriminate.
Qed.

(** ** What an iteration leaves behind *)

Lemma transform_unreserved (new_data : LongFrame) (b : DataFrame) :
  transform new_data = Ok b ->
  forall o, In o (dropna (records new_data)) -> ~ In (obs_label o) reserved_names.
Proof.
  unfold transform, pivot_table.
  set (l := dropna (records new_data)).
  destruct (has_column "date" (pivot_labels l)
            || has_column "time" (pivot_labels l))%bool eqn:E1;
    [discriminate|].
  destruct (has_column "Date" (pivot_labels l)
            || has_column "Time" (pivot_labels l))%bool eqn:E2;
    [discriminate|].
  intros _ r Hr Hin.
  apply orb_false_iff in E1, E2. destruct E1 as [Ea Eb], E2 as [Ec Ed].
  assert (has_column (obs_label r) (pivot_labels l) = true)
    as Hl by (apply has_column_In, pivot_labels_In; eauto).
  simpl in Hin. destruct Hin as [H|[H|[H|[H|[]]]]]; rewrite <- H in Hl; congruence.
Qed.

Lemma transform_Ok (new_data : LongFrame) (b : DataFrame) :
  transform new_data = Ok b ->
  b = mkFrame final_cols
        (map (wide_row (dropna (records new_data)))
             (pivot_index (dropna (records new_data)))).
Proof.
  intros H. pose proof (transform_unreserved _ _ H) as Hres.
  rewrite (transform_wide_rows _ Hres) in H. congruence.
Qed.

Lemma accepted_batch_shape (w : World) (b : DataFrame) :
  accepted_batch w = Some b ->
  exists f,
    expected_csv w = Some (Table f) /\ records f <> [] /\
    has_required_cols f = true /\
    b = mkFrame final_cols
          (map (wide_row (dropna (records f))) (pivot_index (dropna (records f)))).
Proof.
  unfold accepted_batch. destruct (expected_csv w) as [[|f]|]; try discriminate.
  destruct (empty f) eqn:Ee; simpl; [discriminate|].
  destruct (has_required_cols f) eqn:Er; [|discriminate].
  destruct (transform f) as [pb|] eqn:Et; [|discriminate].
  intros [= <-]. exists f. repeat split; auto.
  - intros Hnil. unfold empty in Ee. rewrite Hnil in Ee.
    now destruct (long_columns f).
  - now apply transform_Ok.
Qed.

Lemma has_column_concat (c : string) (ca cb : list string) :
  has_column c cb = true -> has_column c (concat_columns ca cb) = true.
Proof.
  intros H. apply has_column_In. unfold concat_columns. apply in_or_app.
  destruct (has_column c ca) eqn:E.
  - left. now apply has_column_In.
  - right. apply filter_In. split; [now apply has_column_In|]. now rewrite E.
Qed.

Lemma drop_duplicates_rows_length (l : list Row) :
  List.length (drop_duplicates_rows l) <= List.length l.
Proof.
  induction l as [|r l IH]; simpl; [lia|].
  destruct (existsb (fun r' => key_eqb (key r) (key r')) l); simpl; lia.
Qed.

Lemma merge_len (current incoming : DataFrame) :
  len (merge current incoming) <= len current + len incoming.
Proof.
  unfold len. rewrite merge_rows, sort_rows_length.
  etransitivity; [apply drop_duplicates_rows_length|]. now rewrite length_app.
Qed.

Lemma cap_len_le (df : DataFrame) :
  len (cap df) <= MAX_ROWS /\ len (cap df) <= len df.
Proof. rewrite cap_len. generalize MAX_ROWS (len df). intros; lia. Qed.

Lemma app_one_neq {A} (l : list A) (x : A) : l <> l ++ [x].
Proof.
  intros H. apply (f_equal (@List.length A)) in H.
  rewrite length_app in H. simpl in H. lia.
Qed.

Lemma process_batch_unreported (env : Env) (w : World) :
  accepted_batch w = None ->
  reported (snd (process_batch env w)) = reported w.
Proof.
  unfold accepted_batch, process_batch, bind, get, read_csv, ret, raise, lift,
    os_remove, modify.
  destruct (expected_csv w) as [[|f]|]; simpl; auto.
  destruct (empty f); simpl.
  - intros _. destruct (remove_ok env); simpl; auto.
  - destruct (has_required_cols f); simpl.
    + destruct (transform f); [discriminate|]. simpl. auto.
    + intros _. destruct (remove_ok env); simpl; auto.
Qed.

(** X6. An iteration prints at most one "Success!" line.  When it prints
    one, a batch reached the merge and [save_atomic] returned: the history
    file is the one written from the master table, which is the capped merge
    of that batch, and no temporary file is left.  The reported number of
    timestamps is the number of rows of the batch, and the reported total is
    the length of the master table, at most 5000 and at most the previous
    length plus the reported number of timestamps.  The batch file is deleted
    only after the line is printed: when [os.remove] fails the iteration
    still ends on the "Error processing CSV data" path with the batch file in
    place.  An iteration that ends on the success path has printed its line
    and deleted the batch file. *)
Theorem success_leaves_disk_in_step (env : Env) (w : World) (added total : nat) :
  let w' := snd (iteration env w) in
  (reported w' = reported w ++ [(added, total)] ->
   automation_file w' = Some (Table (master_df w')) /\
   tmp_file w' = None /\
   (exists b, accepted_batch (after_script env w) = Some b /\
              added = len b /\
              master_df w' = cap (merge (master_df w) b)) /\
   total = len (master_df w') /\
   total <= MAX_ROWS /\
   total <= len (master_df w) + added /\
   (if remove_ok env
    then fst (iteration env w) = Ok (Success added total) /\
         expected_csv w' = None
    else fst (iteration env w) = Ok ProcessingError /\
         expected_csv w' = r_output env)) /\
  (fst (iteration env w) = Ok (Success added total) ->
   reported w' = reported w ++ [(added, total)] /\ expected_csv w' = None) /\
  (reported w' = reported w \/ exists a t, reported w' = reported w ++ [(a, t)]).
Proof.
  cbv zeta. rewrite iteration_paths.
  destruct (r_exit env);
    try (split; [intros H; now apply app_one_neq in H
                |split; [discriminate|now left]]).
  destruct (r_output env) as [c|] eqn:Hout;
    [|split; [intros H; now apply app_one_neq in H
             |split; [discriminate|now left]]].
  destruct (accepted_batch (after_script env w)) as [b|] eqn:E.
  - rewrite (process_batch_accepted _ _ _ E), save_atomic_paths.
    destruct (to_csv env), (replace_ok env), (remove_ok env);
      cbn [fst snd reported report set_expected_csv set_tmp_file
           set_automation_file set_master_df after_script master_df
           automation_file tmp_file expected_csv];
      (split; [|split; [try discriminate|eauto]]);
      try (intros H; now apply app_one_neq in H).
    + intros H. apply app_inv_head in H. injection H as <- <-.
      repeat split; eauto.
      * apply cap_len_le.
      * etransitivity; [apply cap_len_le|]. apply merge_len.
    + intros [= <- <-]. auto.
    + intros H. apply app_inv_head in H. injection H as <- <-.
      repeat split; eauto.
      * apply cap_len_le.
      * etransitivity; [apply cap_len_le|]. apply merge_len.
  - pose proof (process_batch_unreported env _ E) as Hr.
    assert (forall a t, fst (process_batch env (after_script env w))
                        <> Ok (Success a t)) as Hs.
    { intros a t. unfold accepted_batch in E.
      unfold process_batch, bind, get, read_csv, ret, raise, lift, os_remove,
        modify.
      destruct (expected_csv (after_script env w)) as [[|f]|]; simpl;
        try discriminate.
      destruct (empty f); simpl.
      - destruct (remove_ok env); discriminate.
      - destruct (has_required_cols f); simpl.
        + destruct (transform f); discriminate.
        + destruct (remove_ok env); discriminate. }
    destruct (process_batch env (after_script env w)) as [[o|e] w1];
      cbn [fst snd] in *; cbn [after_script reported set_expected_csv] in Hr;
      rewrite Hr;
      (split; [intros H; now apply app_one_neq in H
              |split; [|now left]]); try discriminate.
    intros [= ->]. now destruct (Hs added total).
Qed.

Lemma success_leaves_disk_in_step_witness :
  reported (snd (iteration good_env stored_world)) =
    reported stored_world ++ [(1, 1)] /\
  automation_file (snd (iteration good_env stored_world)) =
    Some (Table (master_df (snd (iteration good_env stored_world)))) /\
  master_df (snd (iteration good_env stored_world)) = example_wide.
Proof.
  assert (reported (snd (iteration good_env stored_world)) =
          reported stored_world ++ [(1, 1)]) as H by (vm_compute; reflexivity).
  split; [exact H|]. split.
  - exact (proj1 (proj1
      (success_leaves_disk_in_step good_env stored_world 1 1) H)).
  - vm_compute. reflexivity.
Defined.

(** X7. A batch file that is missing, cannot be read, or holds no rows
    leaves the history untouched: the iteration returns on a path other than
    success, and the master table, the history file and the temporary file
    are as they were. *)
Theorem batch_without_rows_is_skipped (env : Env) (w : World) :
  r_exit env = Exit0 ->
  match r_output env with
  | None => True
  | Some Unreadable => True
  | Some (Table f) => empty f = true
  end ->
  fst (iteration env w) =
    Ok (match r_output env with
        | None => OutputMissing
        | Some Unreadable => ProcessingError
        | Some (Table _) => if remove_ok env then EmptyData else ProcessingError
        end) /\
  master_df (snd (iteration env w)) = master_df w /\
  automation_file (snd (iteration env w)) = automation_file w /\
  tmp_file (snd (iteration env w)) = tmp_file w.
Proof.
  intros Hexit Hout. rewrite iteration_paths, Hexit.
  unfold process_batch, bind, get, read_csv, ret, raise, lift, os_remove, modify,
    after_script.
  destruct (r_output env) as [[|f]|] eqn:E; simpl; rewrite ?E; simpl; auto.
  rewrite Hout. simpl. destruct (remove_ok env); simpl; auto.
Qed.

Lemma batch_without_rows_is_skipped_witness :
  r_exit (mkEnv Exit0 None Written true true) = Exit0 /\
  fst (iteration (mkEnv Exit0 None Written true true) stored_world) = Ok OutputMissing /\
  fst (iteration (mkEnv Exit0 (Some Unreadable) Written true true) stored_world) =
    Ok ProcessingError.
Proof.
  split; [reflexivity|]. split.
  - exact (proj1 (batch_without_rows_is_skipped
                    (mkEnv Exit0 None Written true true) stored_world eq_refl I)).
  - exact (proj1 (batch_without_rows_is_skipped
                    (mkEnv Exit0 (Some Unreadable) Written true true) stored_world
                    eq_refl I)).
Defined.

(** ** How merges compose *)

Lemma has_column_app (c : string) (x y : list string) :
  has_column c (x ++ y) = (has_column c x || has_column c y)%bool.
Proof. apply existsb_app. Qed.

Lemma has_column_filter_out (c : string) (h a : list string) :
  has_column c (filter (fun x => negb (has_column x h)) a) =
  (negb (has_column c h) && has_column c a)%bool.
Proof.
  apply Bool.eq_iff_eq_true.
  rewrite andb_true_iff, negb_true_iff, !has_column_In, filter_In, negb_true_iff.
  tauto.
Qed.

Lemma concat_columns_assoc (h a b : list string) :
  concat_columns (concat_columns h a) b = concat_columns h (concat_columns a b).
Proof.
  unfold concat_columns. rewrite <- app_assoc. f_equal.
  rewrite filter_app. f_equal.
  induction b as [|c b IH]; [reflexivity|]. cbn [filter].
  rewrite IH, has_column_app, has_column_filter_out.
  destruct (has_column c h) eqn:Eh, (has_column c a) eqn:Ea; cbn [negb orb andb filter];
    rewrite ?Eh; reflexivity.
Qed.

Lemma frame_eq (a b : DataFrame) :
  columns a = columns b -> rows a = rows b -> a = b.
Proof. destruct a, b. simpl. congruence. Qed.

Lemma merge_columns (current incoming : DataFrame) :
  columns (merge current incoming) =
  concat_columns (columns current) (columns incoming).
Proof. reflexivity. Qed.

(** X8. Merging a batch and then a second one is merging the two batches
    put together, the second after the first: on a key both have, the later
    batch wins. *)
Theorem merge_twice_is_merge_of_concat (H A B : DataFrame) :
  merge (merge H A) B = merge H (concat A B).
Proof.
  apply frame_eq.
  - rewrite !merge_columns. apply concat_columns_assoc.
  - apply strictly_ascending_ext; try apply merge_ascending.
    intros r. rewrite !merge_In. cbn [rows concat].
    rewrite !lookup_last_app, merge_lookup, lookup_last_app.
    now destruct (lookup_last (key r) (rows B)).
Qed.

(** X9. A merge loses no timestamp and invents none: the keys of the result
    are the keys of the current table and of the batch, each once, so the
    result has at most as many rows as the two together. *)
Theorem merge_keeps_every_key (current incoming : DataFrame) :
  (forall k, In k (keys (rows (merge current incoming))) <->
             In k (keys (rows current)) \/ In k (keys (rows incoming))) /\
  NoDup (keys (rows (merge current incoming))) /\
  len (merge current incoming) <= len current + len incoming.
Proof.
  split; [|split].
  - intros k. unfold keys. rewrite <- in_app_iff, <- map_app, !in_map_iff. split.
    + intros [r [Hk Hr]]. exists r. split; [assumption|].
      apply merge_In, lookup_last_Some in Hr. tauto.
    + intros [r [Hk Hr]].
      destruct (lookup_last k (rows current ++ rows incoming)) as [x|] eqn:E.
      * pose proof (lookup_last_Some _ _ _ E) as [_ Hx]. exists x.
        split; [assumption|]. apply merge_In. now rewrite Hx.
      * exfalso. rewrite lookup_last_None in E. now apply (E r).
  - apply strictly_ascending_NoDup, merge_ascending.
  - apply merge_len.
Qed.

Lemma filter_ascending (f : Row -> bool) (l : list Row) :
  strictly_ascending l -> strictly_ascending (filter f l).
Proof.
  induction l as [|r l IH]; [auto|]. intros H.
  apply strictly_ascending_cons in H. destruct H as [Hs Hf]. cbn [filter].
  destruct (f r); [|auto].
  apply strictly_ascending_cons. split; [auto|].
  rewrite Forall_forall in *. intros x Hx. apply filter_In in Hx. now apply Hf.
Qed.

Lemma skipn_app_exact {A} (a b : list A) : skipn (List.length a) (a ++ b) = b.
Proof. induction a as [|x a IH]; simpl; auto. Qed.

(** X10. Lines 122-130 as a whole are idempotent in the batch: merging and
    capping, then merging the same batch again and capping again, gives the
    table of the first pass, also when the cap evicted rows of the batch. *)
Theorem merge_and_cap_idempotent (H B : DataFrame) :
  cap (merge (cap (merge H B)) B) = cap (merge H B).
Proof.
  set (M := merge H B).
  pose proof (merge_ascending H B) as HM. fold M in HM.
  pose proof (cap_split M) as Hsplit.
  set (E := firstn (len M - MAX_ROWS) (rows M)) in *.
  set (C := rows (cap M)) in *.
  set (E' := filter (fun e => match lookup_last (key e) (rows B) with
                              | Some _ => true
                              | None => false
                              end) E).
  assert (strictly_ascending E /\ strictly_ascending C /\
          forall x y, In x E -> In y C -> row_lt x y) as (HE & HC & HEC).
  { rewrite Hsplit in HM. now apply strictly_ascending_app in HM. }
  assert (forall r, In r (rows M) <->
            lookup_last (key r) (rows B) = Some r \/
            (lookup_last (key r) (rows B) = None /\
             lookup_last (key r) (rows H) = Some r)) as HinM.
  { intros r. unfold M. rewrite merge_In, lookup_last_app.
    destruct (lookup_last (key r) (rows B)) as [x|]; split.
    - now left.
    - intros [Hx|[Hx _]]; [assumption|discriminate].
    - now right.
    - intros [Hx|[_ Hx]]; [discriminate|assumption]. }
  assert (rows (merge (cap M) B) = E' ++ C) as HS.
  { apply strictly_ascending_ext.
    - apply merge_ascending.
    - apply strictly_ascending_app. split; [now apply filter_ascending|].
      split; [assumption|]. intros x y Hx. apply filter_In in Hx. now apply HEC.
    - intros r. rewrite merge_In, lookup_last_app. fold C.
      rewrite in_app_iff. unfold E'. rewrite filter_In.
      pose proof (HinM r) as Hr. rewrite Hsplit, in_app_iff in Hr.
      pose proof (lookup_last_ascending (key r) C r HC) as HlC.
      destruct (lookup_last (key r) (rows B)) as [x|] eqn:Eb.
      + split.
        * intros [= ->]. destruct (proj2 Hr (or_introl eq_refl)); auto.
        * intros [[Hin _]|Hin].
          -- destruct (proj1 Hr (or_introl Hin)) as [Hx|[Hx _]];
               [assumption|discriminate].
          -- destruct (proj1 Hr (or_intror Hin)) as [Hx|[Hx _]];
               [assumption|discriminate].
      + rewrite HlC. split.
        * intros [Hin _]. now right.
        * intros [[_ Hf]|Hin]; [discriminate|]. now split. }
  apply frame_eq.
  - rewrite !cap_columns, !merge_columns, cap_columns.
    unfold M. rewrite merge_columns. apply concat_columns_idem.
  - rewrite cap_rows. unfold len at 1. rewrite HS. fold C.
    destruct (Nat.le_gt_cases (len M) MAX_ROWS) as [Hle|Hgt].
    + assert (E = []) as HE0.
      { unfold E. replace (len M - MAX_ROWS) with 0
          by (generalize MAX_ROWS Hle; intros; lia). reflexivity. }
      unfold E'. rewrite HE0. cbn [filter app].
      assert (List.length C <= MAX_ROWS) as HlenC
        by (unfold C; apply (proj1 (cap_len_le M))).
      replace (List.length C - MAX_ROWS) with 0
        by (generalize MAX_ROWS HlenC; intros; lia).
      reflexivity.
    + assert (List.length C = MAX_ROWS) as HlenC.
      { unfold C. fold (len (cap M)). rewrite cap_len.
        generalize MAX_ROWS Hgt. intros; lia. }
      rewrite length_app, HlenC.
      replace (List.length E' + MAX_ROWS - MAX_ROWS) with (List.length E')
        by (generalize MAX_ROWS; intros; lia).
      apply skipn_app_exact.
Qed.

(** ** What the transform hands to the merge *)

Section SortedUniqueMore.
Variable A : Type.
Variable cmp : A -> A -> comparison.

Lemma insert_unique_length (a : A) (l : list A) :
  List.length (insert_unique cmp a l) <= S (List.length l).
Proof.
  induction l as [|x l IH]; simpl; [lia|].
  destruct (cmp a x); simpl; lia.
Qed.

Lemma sorted_unique_length (l : list A) :
  List.length (sorted_unique cmp l) <= List.length l.
Proof.
  induction l as [|a l IH]; simpl; [lia|].
  etransitivity; [apply insert_unique_length|]. lia.
Qed.

End SortedUniqueMore.

Lemma pivot_index_sorted (l : list Observation) :
  StronglySorted (cmp_lt key_compare) (pivot_index l).
Proof.
  apply (sorted_unique_sorted _ _ key_compare_eq key_compare_antisym).
  intros a b c. apply key_lt_trans.
Qed.

Lemma wide_rows_ascending (l : list Observation) (ks : list Key) :
  StronglySorted (cmp_lt key_compare) ks ->
  strictly_ascending (map (wide_row l) ks).
Proof.
  intros Hs. apply strictly_ascending_strong.
  induction Hs as [|k ks Hs IH Hf]; cbn [map]; constructor; [assumption|].
  rewrite Forall_forall in *. intros r Hr. apply in_map_iff in Hr.
  destruct Hr as [k' [<- Hk']]. unfold row_lt. rewrite !key_wide_row.
  now apply Hf.
Qed.

Lemma cell_wide_row (l : list Observation) (k : Key) (c : string) :
  In c value_cols -> cell c (wide_row l k) = Some (pivot_cell k c l).
Proof.
  intros Hc. simpl in Hc.
  destruct Hc as [<-|[<-|[<-|[<-|[<-|[]]]]]]; reflexivity.
Qed.

(** X11. The batch the transform returns is fit for the merge: it has the
    canonical seven columns, one row per (date, time) of the records of the R
    output that have all four cells, in strictly ascending order, hence no
    more rows than the R output has records, and every row has a value in
    each of the five value columns. *)
Theorem transform_output_shape (new_data : LongFrame) (b : DataFrame) :
  transform new_data = Ok b ->
  columns b = final_cols /\
  strictly_ascending (rows b) /\
  (forall k, In k (keys (rows b)) <->
             exists r d t c v,
               In r (records new_data) /\
               date r = Some d /\ time r = Some t /\
               classification r = Some c /\ conc r = Some v /\ k = (d, t)) /\
  len b <= List.length (records new_data) /\
  (forall r c, In r (rows b) -> In c value_cols -> cell c r <> None).
Proof.
  intros Ht. apply transform_Ok in Ht. subst b. cbn [columns rows].
  split; [reflexivity|]. split; [apply wide_rows_ascending, pivot_index_sorted|].
  split; [|split].
  - intros k. rewrite <- dropna_keys, <- pivot_index_In. unfold keys.
    rewrite map_map.
    rewrite (map_ext _ (fun k => k)) by apply key_wide_row.
    now rewrite map_id.
  - unfold len. cbn [rows]. rewrite length_map. unfold pivot_index.
    etransitivity; [apply sorted_unique_length|]. rewrite length_map.
    apply dropna_length.
  - intros r c Hr Hc. apply in_map_iff in Hr. destruct Hr as [k [<- _]].
    now rewrite cell_wide_row.
Qed.

Lemma transform_output_shape_witness :
  transform example_batch = Ok example_wide /\
  strictly_ascending (rows example_wide).
Proof.
  assert (transform example_batch = Ok example_wide) as H by reflexivity.
  split; [exact H|].
  exact (proj1 (proj2 (transform_output_shape example_batch example_wide H))).
Defined.

Lemma row_for_merge (current incoming : DataFrame) (k : Key) :
  row_for k (merge current incoming) =
  match lookup_last k (rows incoming) with
  | Some r => Some r
  | None => lookup_last k (rows current)
  end.
Proof.
  unfold row_for.
  rewrite find_NoDup by apply strictly_ascending_NoDup, merge_ascending.
  rewrite merge_lookup. apply lookup_last_app.
Qed.

(** X12. Labels outside the five value columns are dropped, but their
    timestamp is not: when some record with all four cells carries the
    (date, time) [k], and every such record carries a label outside the five
    value columns, the batch still holds a row for that timestamp, all
    zeros, and the merge puts it in place of whatever the history held
    there. *)
Theorem unknown_labels_give_zero_row (new_data : LongFrame) (b : DataFrame) (k : Key) :
  transform new_data = Ok b ->
  (exists o, In o (dropna (records new_data)) /\ long_key o = k) ->
  (forall o, In o (dropna (records new_data)) -> long_key o = k ->
             ~ In (obs_label o) value_cols) ->
  In (zero_row k) (rows b) /\
  forall current, row_for k (merge current b) = Some (zero_row k).
Proof.
  intros Ht Hex Hunknown.
  pose proof (transform_Ok _ _ Ht) as Hb. subst b.
  set (l := dropna (records new_data)) in *.
  assert (wide_row l k = zero_row k) as Hz.
  { unfold wide_row, zero_row.
    assert (forall c, In c value_cols -> pivot_cell k c l = 0%Q) as H0.
    { intros c Hc. unfold pivot_cell, group_values.
      rewrite filter_none; [reflexivity|].
      intros r Hr. apply andb_false_iff.
      destruct (key_eqb (long_key r) k) eqn:Ek; [right|now left].
      apply key_eqb_eq in Ek. apply String.eqb_neq. intros Hcl.
      apply (Hunknown r Hr Ek). now rewrite Hcl. }
    rewrite !H0 by (simpl; tauto). reflexivity. }
  assert (In (zero_row k) (map (wide_row l) (pivot_index l))) as Hin.
  { rewrite <- Hz. apply in_map. now apply pivot_index_In. }
  split; [exact Hin|].
  intros current. rewrite row_for_merge. cbn [rows].
  replace (lookup_last k (map (wide_row l) (pivot_index l)))
    with (Some (zero_row k)); [reflexivity|].
  symmetry. apply lookup_last_ascending.
  - apply wide_rows_ascending, pivot_index_sorted.
  - split; [exact Hin|]. now destruct k.
Qed.

Lemma unknown_labels_give_zero_row_witness :
  transform (mkLongFrame required_r_cols [observed "2024-01-01" "00:00" "Dust" 4]) =
    Ok (mkFrame final_cols [zero_row ("2024-01-01", "00:00")]) /\
  row_for ("2024-01-01", "00:00")
          (merge stored_history (mkFrame final_cols [zero_row ("2024-01-01", "00:00")])) =
    Some (zero_row ("2024-01-01", "00:00")).
Proof.
  assert (transform (mkLongFrame required_r_cols [observed "2024-01-01" "00:00" "Dust" 4]) =
          Ok (mkFrame final_cols [zero_row ("2024-01-01", "00:00")])) as H
    by reflexivity.
  split; [exact H|].
  refine (proj2 (unknown_labels_give_zero_row _ _ ("2024-01-01", "00:00") H _ _) _).
  - eexists. split; [now left|reflexivity].
  - intros r [<-|[]] _. simpl. intuition discriminate.
Defined.

(** ** The loop over many iterations *)

Lemma iteration_returns (env : Env) (w : World) :
  r_exit env = Exit0 \/ r_exit env = ExitNonZero ->
  exists o, fst (iteration env w) = Ok o.
Proof.
  intros Hne. rewrite iteration_paths.
  destruct (r_exit env); try (destruct Hne; discriminate); simpl; eauto.
  destruct (r_output env); simpl; eauto.
  destruct (process_batch env (after_script env w)) as [[o|e] w']; simpl; eauto.
Qed.

Lemma loop_body_world (env : Env) (s : LoopState) :
  world (snd (loop_body env s)) = snd (iteration env (world s)).
Proof.
  unfold loop_body. destruct (iteration env (world s)) as [[o|e] w'];
    [destruct o|]; reflexivity.
Qed.

(** X14. As long as every call of [subprocess.run] returns or raises
    [CalledProcessError], the loop goes on whatever the iterations meet:
    after [n] iterations it has produced [n] outcomes and slept [n] times
    [WAIT_TIME] seconds, one sleep per iteration on every path; [loop_count]
    has advanced once for each iteration except those that ended in the
    script's non-zero exit. *)
Theorem loop_keeps_running (envs : list Env) (s : LoopState) :
  (forall env, In env envs -> r_exit env = Exit0 \/ r_exit env = ExitNonZero) ->
  exists os,
    fst (run_loop envs s) = Ok os /\
    List.length os = List.length envs /\
    slept (snd (run_loop envs s)) = slept s + WAIT_TIME * List.length envs /\
    loop_count (snd (run_loop envs s)) =
      loop_count s + List.length (filter counted os).
Proof.
  revert s. induction envs as [|env envs IH]; intros s Hok.
  - exists []. cbn. repeat split; lia.
  - assert (r_exit env = Exit0 \/ r_exit env = ExitNonZero) as Hne
      by (apply Hok; now left).
    destruct (iteration_returns env (world s) Hne) as [o Ho].
    cbn [run_loop].
    assert (exists s', loop_body env s = (Ok o, s') /\
                       slept s' = slept s + WAIT_TIME /\
                       loop_count s' = loop_count s + (if counted o then 1 else 0))
      as (s' & Hbody & Hslept & Hcount).
    { unfold loop_body. destruct (iteration env (world s)) as [[o'|e] w'];
        simpl in Ho; [|discriminate]. injection Ho as ->.
      destruct o; eexists; (split; [reflexivity|]); cbn; split; lia. }
    rewrite Hbody.
    destruct (IH s' (fun e He => Hok e (or_intror He)))
      as (os & Hrun & Hlen & Hsl & Hlc).
    destruct (run_loop envs s') as [[os'|e] s''] eqn:E; simpl in Hrun;
      [|discriminate].
    injection Hrun as ->. exists (o :: os). cbn [fst snd] in *.
    split; [reflexivity|]. split; [simpl; lia|]. split.
    + rewrite Hsl, Hslept. cbn [List.length]. lia.
    + rewrite Hlc, Hcount. cbn [filter]. destruct (counted o); simpl; lia.
Qed.

Lemma loop_keeps_running_witness :
  (forall env, In env [failing_script_env; good_env] ->
               r_exit env = Exit0 \/ r_exit env = ExitNonZero) /\
  exists os,
    fst (run_loop [failing_script_env; good_env] (mkLoop stored_world 0 0)) = Ok os /\
    List.length os = 2.
Proof.
  assert (forall env, In env [failing_script_env; good_env] ->
                      r_exit env = Exit0 \/ r_exit env = ExitNonZero) as H.
  { intros env [<-|[<-|[]]]; [now right|now left]. }
  split; [exact H|].
  destruct (loop_keeps_running [failing_script_env; good_env]
              (mkLoop stored_world 0 0) H) as (os & H1 & H2 & _).
  exists os. split; [exact H1|exact H2].
Defined.

(** X15. A script that cannot be started ends the loop at once: the
    exception is not a [CalledProcessError], no handler catches it, and it
    leaves the loop with nothing changed, no sleep and no iteration after
    it. *)
Theorem launch_failure_ends_the_loop (env : Env) (later : list Env) (s : LoopState) :
  r_exit env = LaunchFailed ->
  run_loop (env :: later) s = (Raise OSError, s).
Proof.
  intros Hexit. cbn [run_loop]. unfold loop_body.
  rewrite iteration_paths, Hexit. now destruct s.
Qed.

Lemma launch_failure_ends_the_loop_witness :
  r_exit (mkEnv LaunchFailed None Written true true) = LaunchFailed /\
  run_loop [mkEnv LaunchFailed None Written true true; good_env]
           (mkLoop stored_world 0 0) =
    (Raise OSError, mkLoop stored_world 0 0).
Proof.
  split; [reflexivity|].
  exact (launch_failure_ends_the_loop (mkEnv LaunchFailed None Written true true)
           [good_env] (mkLoop stored_world 0 0) eq_refl).
Defined.

Lemma merged_well_formed (master b : DataFrame) :
  columns b = final_cols -> well_formed (cap (merge master b)).
Proof.
  intros Hb. unfold well_formed. rewrite cap_columns, merge_columns.
  repeat split.
  - apply has_column_concat. now rewrite Hb.
  - apply has_column_concat. now rewrite Hb.
  - apply cap_ascending, merge_ascending.
  - apply cap_len_le.
Qed.

Lemma iteration_well_formed (env : Env) (w : World) :
  (automation_file (snd (iteration env w)) = automation_file w \/
   exists t, automation_file (snd (iteration env w)) = Some (Table t) /\
             well_formed t) /\
  (master_df (snd (iteration env w)) = master_df w \/
   well_formed (master_df (snd (iteration env w)))).
Proof.
  rewrite iteration_paths.
  destruct (r_exit env); simpl; auto.
  destruct (r_output env) as [c|]; simpl; auto.
  destruct (accepted_batch (after_script env w)) as [b|] eqn:E.
  - rewrite (process_batch_accepted _ _ _ E), save_atomic_paths.
    destruct (accepted_batch_shape _ _ E) as (f & _ & _ & _ & Hb).
    assert (well_formed (cap (merge (master_df w) b))) as Hwf
      by (apply merged_well_formed; rewrite Hb; reflexivity).
    destruct (to_csv env), (replace_ok env), (remove_ok env); simpl;
      (split; [|now right]); eauto.
  - pose proof (process_batch_rejected env _ E) as (Hm & Ha & _).
    destruct (process_batch env (after_script env w)) as [[o|e] w']; simpl in *;
      auto.
Qed.

(** X16. Whatever the iterations meet, and whether or not the loop is still
    running, the history file is either the file found at the start or a
    whole table with its [Date] and [Time] columns, strictly ascending keys
    and at most 5000 rows; the same holds of the master table in memory. *)
Theorem history_stays_well_formed (envs : list Env) (s : LoopState) :
  (automation_file (world (snd (run_loop envs s))) = automation_file (world s) \/
   exists t, automation_file (world (snd (run_loop envs s))) = Some (Table t) /\
             well_formed t) /\
  (master_df (world (snd (run_loop envs s))) = master_df (world s) \/
   well_formed (master_df (world (snd (run_loop envs s))))).
Proof.
  revert s. induction envs as [|env envs IH]; intros s; [cbn; auto|].
  cbn [run_loop].
  pose proof (loop_body_world env s) as Hw.
  pose proof (iteration_well_formed env (world s)) as [Hf Hm].
  rewrite <- Hw in Hf, Hm.
  destruct (loop_body env s) as [[o|e] s']; cbn [snd] in *; [|auto].
  specialize (IH s').
  destruct (run_loop envs s') as [[os|e] s'']; cbn [snd] in *;
    destruct IH as [IHf IHm]; split.
  - destruct IHf as [->|IHf]; auto.
  - destruct IHm as [->|IHm]; auto.
  - destruct IHf as [->|IHf]; auto.
  - destruct IHm as [->|IHm]; auto.
Qed.

(** ** A batch older than a full history *)

(** X17. When the history is full and every timestamp of a batch is older
    than every timestamp of the history, merging and capping leaves the rows
    of the history as they were: the batch is evicted at once. *)
Theorem stale_batch_is_evicted (master b : DataFrame) :
  strictly_ascending (rows master) -> len master = MAX_ROWS ->
  strictly_ascending (rows b) ->
  (forall x y, In x (rows b) -> In y (rows master) -> row_lt x y) ->
  rows (cap (merge master b)) = rows master.
Proof.
  intros Hm Hfull Hb Hold.
  assert (rows (merge master b) = rows b ++ rows master) as Hrows.
  { apply strictly_ascending_ext.
    - apply merge_ascending.
    - apply strictly_ascending_app. auto.
    - intros r. rewrite merge_In, lookup_last_app, in_app_iff.
      pose proof (lookup_last_ascending (key r) _ r Hb) as Lb.
      pose proof (lookup_last_ascending (key r) _ r Hm) as Lm.
      destruct (lookup_last (key r) (rows b)) as [x|] eqn:E.
      + split.
        * intros [= ->]. left. now apply Lb.
        * intros [Hr|Hr]; [apply Lb; auto|].
          exfalso. apply lookup_last_Some in E. destruct E as [Hx Hk].
          specialize (Hold x r Hx Hr). unfold row_lt in Hold.
          rewrite Hk in Hold. now apply key_lt_irrefl in Hold.
      + rewrite Lm. split; [intros [Hr _]; now right|].
        intros [Hr|Hr]; [|auto].
        exfalso. rewrite lookup_last_None in E. now apply (E r). }
  rewrite cap_rows. unfold len at 1. rewrite Hrows, length_app.
  fold (len master). rewrite Hfull.
  replace (List.length (rows b) + MAX_ROWS - MAX_ROWS) with (List.length (rows b))
    by (generalize MAX_ROWS; intros; lia).
  apply skipn_app_exact.
Qed.

Lemma yearly_rows_S (n : nat) (from : N) :
  yearly_rows (S n) from =
  wide (new_year from) "00:00" 0 0 0 0 0 :: yearly_rows n (N.succ from).
Proof. reflexivity. Qed.

Lemma full_history_facts :
  strictly_ascending (rows (mkFrame final_cols (yearly_rows MAX_ROWS 1))) /\
  len (mkFrame final_cols (yearly_rows MAX_ROWS 1)) = MAX_ROWS /\
  strictly_ascending (rows (mkFrame final_cols (yearly_rows 1 0))) /\
  (forall x y, In x (rows (mkFrame final_cols (yearly_rows 1 0))) ->
               In y (rows (mkFrame final_cols (yearly_rows MAX_ROWS 1))) ->
               row_lt x y).
Proof.
  assert (strictly_ascending (yearly_rows (S MAX_ROWS) 0)) as Hs
    by (apply ascending_b_sound; vm_compute; reflexivity).
  rewrite yearly_rows_S in Hs. change (N.succ 0) with 1%N in Hs.
  apply strictly_ascending_cons in Hs. destruct Hs as [Hs Hf].
  cbn [rows]. split; [exact Hs|]. split; [apply yearly_rows_length|].
  split; [repeat constructor|].
  rewrite yearly_rows_S. intros x y [<-|[]] Hy.
  rewrite Forall_forall in Hf. now apply Hf.
Qed.

Lemma stale_batch_is_evicted_witness :
  len (mkFrame final_cols (yearly_rows MAX_ROWS 1)) = MAX_ROWS /\
  rows (cap (merge (mkFrame final_cols (yearly_rows MAX_ROWS 1))
                   (mkFrame final_cols (yearly_rows 1 0)))) =
  rows (mkFrame final_cols (yearly_rows MAX_ROWS 1)).
Proof.
  destruct full_history_facts as (H1 & H2 & H3 & H4).
  split; [exact H2|].
  exact (stale_batch_is_evicted _ _ H1 H2 H3 H4).
Defined.
